(** * Building-map-app: colour classification, flood fill, pixel clustering
    and the colour-based building detector.

    Shallow embedding of [src/app/flood-fill-test/page.tsx] (the flood-fill
    test page) and of the map page that follows it in the same source file
    ([BuildingMapApp], with [clusterPixels] and [detectBuildingsByColor]).

    Conventions of the embedding.
    - A JavaScript number that holds an integer (pixel coordinates, colour
      channels, the tolerance of the UI slider, array indices) is a [Z].
    - Reading a typed array outside its range yields [undefined]: reads
      return [option Z], and [None] stands for [undefined].
    - A [Uint8ClampedArray] clamps what is stored into it to [0..255] and
      ignores a store outside its range.
    - In-place mutation is explicit state passing: a function that mutates
      its buffer returns the new buffer.
    - The [while] loops are recursive functions over a step budget; for each
      of them a budget computed from the input is proved sufficient. *)

From Stdlib Require Import ZArith Lia Ascii.
From stdpp Require Import base tactics option numbers list strings pretty sets gmap.

#[local] Set Warnings "-clear-no-such-hyp".

Local Open Scope Z_scope.

(* ===================================================================== *)
(** * Colour classifier ([colorSimilarity], [isBuildingColor])           *)
(* ===================================================================== *)

Module Classifier.

(** The structural type [{r: number, g: number, b: number}]. *)
Record RGB := mkRGB { r : Z; g : Z; b : Z }.

(** The shape of the constant [BUILDING_COLORS]. *)
Record Palette := mkPalette { building : list RGB; boundary : list RGB }.

(** [BUILDING_COLORS] of the flood-fill test page (seven and six samples). *)
Definition BUILDING_COLORS_floodFill : Palette :=
  {| building := [ mkRGB 255 230 190; mkRGB 254 229 189; mkRGB 255 231 191;
                   mkRGB 255 235 205; mkRGB 255 225 185; mkRGB 255 240 210;
                   mkRGB 255 220 180 ];
     boundary := [ mkRGB 255 178 128; mkRGB 255 212 169; mkRGB 255 135 75;
                   mkRGB 255 165 115; mkRGB 255 190 140; mkRGB 255 150 100 ] |}.

(** [BUILDING_COLORS] of the map page (three and three samples). *)
Definition BUILDING_COLORS_map : Palette :=
  {| building := [ mkRGB 255 230 190; mkRGB 254 229 189; mkRGB 255 231 191 ];
     boundary := [ mkRGB 255 178 128; mkRGB 255 212 169; mkRGB 255 135 75 ] |}.

(** The string literals ['building'], ['boundary'] and ['none']. *)
Inductive ColorType := TBuilding | TBoundary | TNone.

#[global] Instance ColorType_eq_dec : EqDecision ColorType.
Proof. solve_decision. Defined.

Definition colorSimilarity (color1 color2 : RGB) : Z :=
  Z.abs (r color1 - r color2) +
  Z.abs (g color1 - g color2) +
  Z.abs (b color1 - b color2).

(** [for (const c of samples) { if (colorSimilarity(color, c) <= tolerance)
    return ...; }]: [true] when the loop returns from inside its body. *)
Fixpoint matchesAny (color : RGB) (tolerance : Z) (samples : list RGB) : bool :=
  match samples with
  | [] => false
  | sample :: rest =>
      if colorSimilarity color sample <=? tolerance then true
      else matchesAny color tolerance rest
  end.

Section WithPalette.
Variable BUILDING_COLORS : Palette.

(** [tolerance: number = 50]: the argument is optional. *)
Definition isBuildingColor (r g b : Z) (tolerance : option Z) : ColorType :=
  let tolerance := default 50 tolerance in
  let color := mkRGB r g b in
  if matchesAny color tolerance (building BUILDING_COLORS) then TBuilding
  else if matchesAny color tolerance (boundary BUILDING_COLORS) then TBoundary
  else TNone.
End WithPalette.

(** The metric of the claim, in its words: the sum of the absolute
    per-channel differences on r, g and b. *)
Definition manhattan (r1 g1 b1 r2 g2 b2 : Z) : Z :=
  Z.abs (r1 - r2) + Z.abs (g1 - g2) + Z.abs (b1 - b2).

(** Some sample of [samples] is within [tolerance] of the colour. *)
Definition someWithin (r0 g0 b0 tolerance : Z) (samples : list RGB) : Prop :=
  ∃ s, s ∈ samples ∧ manhattan r0 g0 b0 (r s) (g s) (b s) ≤ tolerance.

End Classifier.

(* ===================================================================== *)
(** * Raster buffers ([ImageData]) shared by the flood fill and the detector *)
(* ===================================================================== *)

Module Raster.

(** [ImageData]: [data] is a [Uint8ClampedArray] of RGBA bytes, row-major. *)
Record ImageData := mkImageData { width : Z; height : Z; data : list Z }.

(** [data[i]]: [undefined] ([None]) outside the array. *)
Definition get (data : list Z) (i : Z) : option Z :=
  if i <? 0 then None else data !! Z.to_nat i.

(** What a [Uint8ClampedArray] keeps of an integer stored into it. *)
Definition clamp (v : Z) : Z := Z.max 0 (Z.min 255 v).

(** [data[i] = v]: clamped, and ignored outside the array. *)
Definition set (data : list Z) (i : Z) (v : Z) : list Z :=
  if i <? 0 then data else <[Z.to_nat i := clamp v]> data.

(** A test fixture: the [w]×[h] image whose pixel [(x, y)] has the channels
    [f x y], laid out as [getImageData] lays them out. *)
Definition channel (k : Z) (c : Z * Z * Z * Z) : Z :=
  let '(cr, cg, cb, ca) := c in
  if k =? 0 then cr else if k =? 1 then cg else if k =? 2 then cb else ca.

Definition render (w h : Z) (f : Z → Z → Z * Z * Z * Z) : ImageData :=
  {| width := w; height := h;
     data := (λ j, channel (j `mod` 4) (f ((j `div` 4) `mod` w) ((j `div` 4) `div` w)))
               <$> seqZ 0 (4 * (w * h)) |}.

(** The shape of every [ImageData] the canvas hands out: four bytes for each
    of its [width]×[height] pixels. *)
Definition wellFormed (imageData : ImageData) : Prop :=
  0 ≤ width imageData ∧ 0 ≤ height imageData ∧
  Z.of_nat (length (data imageData)) = 4 * (width imageData * height imageData).

End Raster.

(* ===================================================================== *)
(** * Flood fill engine ([isSimilarColor], [floodFill])                  *)
(* ===================================================================== *)

Module FloodFill.
Import Raster.

(** [interface Point]. *)
Record Point := mkPoint { x : Z; y : Z }.

(** [interface Color]. *)
Record Color := mkColor { r : Z; g : Z; b : Z; a : Z }.

(** A [Color] object built from four reads of the buffer
    ([{ r: data[i], g: data[i + 1], b: data[i + 2], a: data[i + 3] }]):
    each field may be [undefined]. *)
Record Sampled := mkSampled
  { s_r : option Z; s_g : option Z; s_b : option Z; s_a : option Z }.

Definition sample (data : list Z) (index : Z) : Sampled :=
  {| s_r := get data index; s_g := get data (index + 1);
     s_b := get data (index + 2); s_a := get data (index + 3) |}.

(** [v === c] for a read [v] and a number [c]. *)
Definition strictEq (v : option Z) (c : Z) : bool :=
  match v with Some n => n =? c | None => false end.

(** [isSimilarColor]: [Math.sqrt(dr² + dg² + db²) <= tolerance]. On integers
    the comparison is exact: it holds when the tolerance is not negative and
    the sum of squares is at most its square. An [undefined] channel makes
    the distance [NaN], and the comparison false. *)
Definition isSimilarColor (color1 color2 : Sampled) (tolerance : Z) : bool :=
  match s_r color1, s_g color1, s_b color1, s_r color2, s_g color2, s_b color2 with
  | Some r1, Some g1, Some b1, Some r2, Some g2, Some b2 =>
      (0 <=? tolerance) &&
      ((r1 - r2) ^ 2 + (g1 - g2) ^ 2 + (b1 - b2) ^ 2 <=? tolerance ^ 2)
  | _, _, _, _, _, _ => false
  end.

(** The test [c.r === fillColor.r && c.g === fillColor.g && c.b === fillColor.b]. *)
Definition sameRGB (c : Sampled) (fillColor : Color) : bool :=
  strictEq (s_r c) (r fillColor) && strictEq (s_g c) (g fillColor) &&
  strictEq (s_b c) (b fillColor).

(** The four stores that paint the pixel at [index]. *)
Definition paint (data : list Z) (index : Z) (fillColor : Color) : list Z :=
  set (set (set (set data index (r fillColor)) (index + 1) (g fillColor))
         (index + 2) (b fillColor)) (index + 3) (a fillColor).

(** The [while (stack.length > 0)] loop. The head of [stack] is its top;
    [fuel] bounds the number of iterations, [None] means it ran out. *)
Fixpoint fillLoop (fuel : nat) (width height : Z) (startColor : Sampled)
    (fillColor : Color) (tolerance : Z)
    (data : list Z) (stack : list Point) (processedPixels : Z)
    : option (list Z * Z) :=
  match stack with
  | [] => Some (data, processedPixels)
  | top :: stack =>
      match fuel with
      | O => None
      | S fuel =>
          let continue := fillLoop fuel width height startColor fillColor tolerance in
          if (x top <? 0) || (x top >=? width) || (y top <? 0) || (y top >=? height)
          then continue data stack processedPixels
          else
            let index := (y top * width + x top) * 4 in
            let currentColor := sample data index in
            if negb (isSimilarColor currentColor startColor tolerance)
            then continue data stack processedPixels
            else if sameRGB currentColor fillColor
            then continue data stack processedPixels
            else
              continue (paint data index fillColor)
                (mkPoint (x top) (y top - 1) :: mkPoint (x top) (y top + 1) ::
                 mkPoint (x top - 1) (y top) :: mkPoint (x top + 1) (y top) :: stack)
                (processedPixels + 1)
      end
  end.

(** The loop body seen as one test and one update: the byte offset of a
    point, the three [continue] tests together, and the stack after the four
    [push] calls. *)
Definition offset (width : Z) (p : Point) : Z := (y p * width + x p) * 4.

Definition discarded (width height : Z) (startColor : Sampled) (fillColor : Color)
    (tolerance : Z) (data : list Z) (p : Point) : bool :=
  (x p <? 0) || (x p >=? width) || (y p <? 0) || (y p >=? height) ||
  negb (isSimilarColor (sample data (offset width p)) startColor tolerance) ||
  sameRGB (sample data (offset width p)) fillColor.

Definition pushed (p : Point) (stack : list Point) : list Point :=
  mkPoint (x p) (y p - 1) :: mkPoint (x p) (y p + 1) ::
  mkPoint (x p - 1) (y p) :: mkPoint (x p + 1) (y p) :: stack.

(** [floodFill] with an explicit iteration budget. [targetColor] is a
    parameter the source never reads. The result is the mutated buffer and
    the returned count. *)
Definition floodFillWith (fuel : nat) (imageData : ImageData) (startX startY : Z)
    (targetColor fillColor : Color) (tolerance : Z) : option (ImageData * Z) :=
  let startIndex := (startY * width imageData + startX) * 4 in
  let startColor := sample (data imageData) startIndex in
  if sameRGB startColor fillColor then Some (imageData, 0)
  else
    match fillLoop fuel (width imageData) (height imageData) startColor fillColor
            tolerance (data imageData) [mkPoint startX startY] 0 with
    | Some (data', processedPixels) =>
        Some (mkImageData (width imageData) (height imageData) data', processedPixels)
    | None => None
    end.

(** One iteration for the seed and four for every pixel of the buffer. *)
Definition budget (imageData : ImageData) : nat :=
  S (4 * Z.to_nat (width imageData * height imageData)).

Definition floodFill (imageData : ImageData) (startX startY : Z)
    (targetColor fillColor : Color) (tolerance : Z) : option (ImageData * Z) :=
  floodFillWith (budget imageData) imageData startX startY targetColor fillColor tolerance.

(** The seed coordinate lies inside the buffer. *)
Definition inBounds (imageData : ImageData) (px py : Z) : Prop :=
  0 ≤ px < width imageData ∧ 0 ≤ py < height imageData.

(** An [RGBColor] of the data model: every channel is a byte. *)
Definition validColor (c : Color) : Prop :=
  0 ≤ r c ≤ 255 ∧ 0 ≤ g c ≤ 255 ∧ 0 ≤ b c ≤ 255 ∧ 0 ≤ a c ≤ 255.

(** The pixel of [imageData] at [(px, py)], as the loop reads it. *)
Definition pixelAt (imageData : ImageData) (px py : Z) : Sampled :=
  sample (data imageData) ((py * width imageData + px) * 4).

(** The classification of the clicked pixel in [detectAndFloodFill]:
    [isBuildingColor(clickedColor.r, clickedColor.g, clickedColor.b, tolerance)]. *)
Definition buildingType (clickedColor : Color) (tolerance : Z) : Classifier.ColorType :=
  Classifier.isBuildingColor Classifier.BUILDING_COLORS_floodFill
    (r clickedColor) (g clickedColor) (b clickedColor) (Some tolerance).

(** The pixel numbers of the buffer whose r, g, b are not the fill colour's:
    the measure of the work the loop has left. *)
Definition unfilled (width height : Z) (fillColor : Color) (data : list Z) : list Z :=
  filter (λ k, sameRGB (sample data (k * 4)) fillColor = false)
    (seqZ 0 (width * height)).

(** Fixtures. *)
Definition white : Z * Z * Z * Z := (255, 255, 255, 255).
Definition red : Color := mkColor 255 0 0 255.
Definition black0 : Color := mkColor 0 0 0 0.
Definition white4x4 : ImageData := render 4 4 (λ _ _, white).
Definition red4x4 : ImageData := render 4 4 (λ _ _, (255, 0, 0, 255)).
Definition translucentRed2x2 : ImageData := render 2 2 (λ _ _, (255, 0, 0, 128)).
Definition white2x1 : ImageData := render 2 1 (λ _ _, white).
Definition overRed : Color := mkColor 300 0 0 255.

#[global] Instance Point_eq_dec : EqDecision Point.
Proof. solve_decision. Defined.

#[global] Instance Sampled_eq_dec : EqDecision Sampled.
Proof. solve_decision. Defined.

(** What a pixel reads as once the four stores of the loop have painted it. *)
Definition fillSample (fillColor : Color) : Sampled :=
  mkSampled (Some (r fillColor)) (Some (g fillColor)) (Some (b fillColor))
    (Some (a fillColor)).

(** The four points the loop pushes for [p], topmost first. *)
Definition adjacent (p : Point) : list Point :=
  [ mkPoint (x p) (y p - 1); mkPoint (x p) (y p + 1);
    mkPoint (x p - 1) (y p); mkPoint (x p + 1) (y p) ].

(** The point passes the loop's bounds check. *)
Definition inside (width height : Z) (p : Point) : Prop :=
  0 ≤ x p < width ∧ 0 ≤ y p < height.

(** The pixel at byte offset [index] did not have the fill colour's r, g, b
    in [data0] and has them in [data]. *)
Definition tookFill (fillColor : Color) (data0 data : list Z) (index : Z) : Prop :=
  sameRGB (sample data0 index) fillColor = false ∧
  sameRGB (sample data index) fillColor = true.

(** [route ... seed p]: [p] is reached from [seed] through steps to one of
    the four neighbours, over points inside the buffer that took the fill
    colour. *)
Inductive route (width height : Z) (fillColor : Color) (data0 data : list Z)
    (seed : Point) : Point → Prop :=
  | route_seed :
      inside width height seed →
      tookFill fillColor data0 data (offset width seed) →
      route width height fillColor data0 data seed seed
  | route_step p q :
      route width height fillColor data0 data seed p →
      q ∈ adjacent p → inside width height q →
      tookFill fillColor data0 data (offset width q) →
      route width height fillColor data0 data seed q.

(** The pixel numbers at which two buffers of the same size differ. *)
Definition changedPixels (imageData imageData' : ImageData) : list Z :=
  filter (λ k, sample (data imageData') (k * 4) ≠ sample (data imageData) (k * 4))
    (seqZ 0 (width imageData * height imageData)).

(** Fixtures: a white 3×1 strip with a black pixel in the middle, and the
    same strip with its first pixel red. *)
Definition strip3 : ImageData :=
  render 3 1 (λ x _, if x =? 1 then (0, 0, 0, 255) else white).
Definition strip3Filled : ImageData :=
  render 3 1 (λ x _, if x =? 0 then (255, 0, 0, 255)
                     else if x =? 1 then (0, 0, 0, 255) else white).

End FloodFill.

(* ===================================================================== *)
(** * Pixel clustering engine ([clusterPixels])                           *)
(* ===================================================================== *)

Module Clustering.

(** A pixel is the tuple [[number, number]]. *)
Definition Pixel : Type := Z * Z.

(** The template string [`${p[0]},${p[1]}`] that keys the [visited] set. *)
Definition key (p : Pixel) : string := pretty p.1 +:+ "," +:+ pretty p.2.

(** [Math.sqrt(dx ** 2 + dy ** 2) <= maxDistance], on integers. *)
Definition near (maxDistance : Z) (current neighbor : Pixel) : bool :=
  (0 <=? maxDistance) &&
  ((current.1 - neighbor.1) ^ 2 + (current.2 - neighbor.2) ^ 2 <=? maxDistance ^ 2).

(** The inner [for (const neighbor of pixels)] loop: the pixels it pushes on
    the queue, in order. [visited] does not change while it runs. *)
Definition neighbors (pixels : list Pixel) (maxDistance : Z)
    (visited : gset string) (current : Pixel) : list Pixel :=
  filter (λ neighbor, (key neighbor ∉ visited) ∧ near maxDistance current neighbor = true)
    pixels.

(** The [while (queue.length > 0)] loop: [shift] takes the head of [queue],
    [push] appends. [None] means the budget ran out. *)
Fixpoint grow (fuel : nat) (pixels : list Pixel) (maxDistance : Z)
    (visited : gset string) (cluster queue : list Pixel)
    : option (gset string * list Pixel) :=
  match queue with
  | [] => Some (visited, cluster)
  | current :: queue =>
      match fuel with
      | O => None
      | S fuel =>
          if decide (key current ∈ visited)
          then grow fuel pixels maxDistance visited cluster queue
          else
            let visited := {[ key current ]} ∪ visited in
            grow fuel pixels maxDistance visited (cluster ++ [current])
              (queue ++ neighbors pixels maxDistance visited current)
      end
  end.

(** The outer [for (const pixel of pixels)] loop over what is left of the
    input ([rest]); [pixels] is the whole input. *)
Fixpoint sweep (fuel : nat) (pixels : list Pixel) (maxDistance : Z)
    (rest : list Pixel) (visited : gset string) (clusters : list (list Pixel))
    : option (list (list Pixel)) :=
  match rest with
  | [] => Some clusters
  | pixel :: rest =>
      if decide (key pixel ∈ visited)
      then sweep fuel pixels maxDistance rest visited clusters
      else
        match grow fuel pixels maxDistance visited [] [pixel] with
        | None => None
        | Some (visited, cluster) =>
            sweep fuel pixels maxDistance rest visited
              (if (0 <? Z.of_nat (length cluster)) then clusters ++ [cluster]
               else clusters)
        end
  end.

(** The set of keys of a list of pixels. *)
Definition keys (l : list Pixel) : gset string := list_to_set (key <$> l).

(** Reading a key back: the text before its first comma and the text after
    it. *)
Fixpoint commaFree (s : string) : bool :=
  match s with
  | EmptyString => true
  | String c s => negb (Ascii.eqb c ","%char) && commaFree s
  end.

Fixpoint beforeComma (s : string) : string :=
  match s with
  | EmptyString => EmptyString
  | String c s => if Ascii.eqb c ","%char then EmptyString else String c (beforeComma s)
  end.

Fixpoint afterComma (s : string) : string :=
  match s with
  | EmptyString => EmptyString
  | String c s => if Ascii.eqb c ","%char then s else afterComma s
  end.

(** The state of the outer loop when it is consistent: the visited keys are
    those of the pixels clustered so far, which come from the input and have
    pairwise different keys; no cluster is empty. *)
Definition consistent (pixels : list Pixel) (visited : gset string)
    (clusters : list (list Pixel)) : Prop :=
  visited = keys (concat clusters) ∧
  NoDup (key <$> concat clusters) ∧
  (∀ p, p ∈ concat clusters → p ∈ pixels) ∧
  Forall (λ c, c ≠ []) clusters.

Definition clusterPixelsWith (fuel : nat) (pixels : list Pixel) (maxDistance : Z)
    : option (list (list Pixel)) :=
  sweep fuel pixels maxDistance pixels ∅ [].

(** Enough iterations for any one run of the [while] loop: every pixel is
    marked at most once, and marking pushes at most the whole input. *)
Definition budget (pixels : list Pixel) : nat :=
  S (S (length pixels) * length pixels).

(** [clusterPixels]. The budget never runs out ([clusterPixelsWith_enough]),
    so the fallback value is never taken. *)
Definition clusterPixels (pixels : list Pixel) (maxDistance : Z) : list (list Pixel) :=
  default [] (clusterPixelsWith (budget pixels) pixels maxDistance).

(** A list of pixels in which every pixel after the first is within
    [maxDistance] of one that comes before it. *)
Definition linked (maxDistance : Z) (cluster : list Pixel) : Prop :=
  ∀ k p, cluster !! S k = Some p →
         ∃ j q, (j ≤ k)%nat ∧ cluster !! j = Some q ∧ near maxDistance q p = true.



End Clustering.

(* ===================================================================== *)
(** * Region-to-polygon converter and building detector
      ([calculateBounds], [boundsToPolygon], [detectBuildingsByColor])   *)
(* ===================================================================== *)

Module Detector.
Import Raster Clustering.

(** The numbers [calculateBounds] works with: it starts from [Infinity] and
    [-Infinity]. *)
Inductive Num := NegInfinity | Finite (z : Z) | Infinity.

Definition numMin (m n : Num) : Num :=
  match m, n with
  | NegInfinity, _ | _, NegInfinity => NegInfinity
  | Infinity, k | k, Infinity => k
  | Finite i, Finite j => Finite (Z.min i j)
  end.

Definition numMax (m n : Num) : Num :=
  match m, n with
  | Infinity, _ | _, Infinity => Infinity
  | NegInfinity, k | k, NegInfinity => k
  | Finite i, Finite j => Finite (Z.max i j)
  end.

Record Bounds := mkBounds { minX : Num; minY : Num; maxX : Num; maxY : Num }.

Definition calculateBounds (pixels : list Pixel) : Bounds :=
  foldl (λ acc p,
           {| minX := numMin (minX acc) (Finite p.1);
              minY := numMin (minY acc) (Finite p.2);
              maxX := numMax (maxX acc) (Finite p.1);
              maxY := numMax (maxY acc) (Finite p.2) |})
        (mkBounds Infinity Infinity NegInfinity NegInfinity) pixels.

Definition boundsToPolygon (bounds : Bounds) : list (Num * Num) :=
  [ (minX bounds, minY bounds); (maxX bounds, minY bounds);
    (maxX bounds, maxY bounds); (minX bounds, maxY bounds);
    (minX bounds, minY bounds) ].

(** The colour type [isBuildingColor(r, g, b)] of the pixel at [(x, y)], with
    the default tolerance. An [undefined] channel makes every distance [NaN]
    and the answer ['none']. *)
Definition colorTypeAt (imageData : ImageData) (x y : Z) : Classifier.ColorType :=
  let index := (y * width imageData + x) * 4 in
  match get (data imageData) index, get (data imageData) (index + 1),
        get (data imageData) (index + 2) with
  | Some r, Some g, Some b =>
      Classifier.isBuildingColor Classifier.BUILDING_COLORS_map r g b None
  | _, _, _ => Classifier.TNone
  end.

(** The order in which the two nested [for] loops visit the pixels. *)
Definition scanOrder (w h : Z) : list Pixel :=
  y ← seqZ 0 h; x ← seqZ 0 w; [(x, y)].

Definition pixelsOfType (t : Classifier.ColorType) (imageData : ImageData) : list Pixel :=
  filter (λ p, colorTypeAt imageData p.1 p.2 = t)
    (scanOrder (width imageData) (height imageData)).

(** [Math.sqrt((x - pixelX) ** 2 + (y - pixelY) ** 2) <= markerRadius]. *)
Definition markerRadius : Z := 30.

Definition nearMarker (pixelX pixelY : Z) (p : Pixel) : bool :=
  (p.1 - pixelX) ^ 2 + (p.2 - pixelY) ^ 2 <=? markerRadius ^ 2.

(** The reads of the marker pixel for the diagnostics. A channel that is
    [undefined] makes [markerR.toString(16)] (or the same on [markerG],
    [markerB]) throw a [TypeError], which the [catch] turns into [null]. *)
Definition markerReadable (imageData : ImageData) (pixelX pixelY : Z) : bool :=
  let markerIndex := (pixelY * width imageData + pixelX) * 4 in
  match get (data imageData) markerIndex, get (data imageData) (markerIndex + 1),
        get (data imageData) (markerIndex + 2) with
  | Some _, Some _, Some _ => true
  | _, _, _ => false
  end.

(** What the environment hands the detector for the tile request: the
    request throws, the image does not decode (or no pixel data can be read
    from it), or the decoded pixels. *)
Inductive TileFetch :=
  | FetchFailed
  | DecodeFailed
  | Decoded (imageData : ImageData).

Section WithProjection.
(** The two floating-point formulas of the inverse Mercator transform at
    zoom 18, from a tile index and an in-tile pixel offset to degrees. *)
Context {Deg : Type} (pixelLon pixelLat : Z → Num → Deg).

(** A GeoJSON feature, flattened: [geometry.coordinates] and the four
    [properties]. *)
Record Feature := mkFeature
  { coordinates : list (list (Deg * Deg));
    id : Z;
    building : string;
    source : string;
    pixelCount : Z }.

(** [BuildingGeoJSON], a feature collection. *)
Record BuildingGeoJSON := mkBuildingGeoJSON { features : list Feature }.

Definition geoPolygon (tileX tileY : Z) (polygon : list (Num * Num))
    : list (Deg * Deg) :=
  (λ p, (pixelLon tileX p.1, pixelLat tileY p.2)) <$> polygon.

(** The [for (const cluster of clusters)] loop: clusters under five pixels
    are skipped, the others are pushed in order. *)
Definition polygonOf (tileX tileY : Z) (cluster : list Pixel) : list (Deg * Deg) :=
  geoPolygon tileX tileY (boundsToPolygon (calculateBounds cluster)).

Definition survives (cluster : list Pixel) : bool :=
  negb (Z.of_nat (length cluster) <? 5).

Definition polygonsOf (tileX tileY : Z) (clusters : list (list Pixel))
    : list (list (Deg * Deg)) :=
  polygonOf tileX tileY <$> filter (λ c, survives c = true) clusters.

(** [polygons.map((coordinates, index) => ...)], with
    [pixelCount: clusters[index]?.length || 0]. *)
Definition featuresOf (clusters : list (list Pixel))
    (polygons : list (list (Deg * Deg))) : list Feature :=
  imap (λ index coordinates,
          {| coordinates := [coordinates];
             id := Z.of_nat index + 1;
             building := "color_detected";
             source := "color_analysis";
             pixelCount := match clusters !! index with
                           | Some c => Z.of_nat (length c)
                           | None => 0
                           end |})
       polygons.

(** The detector from the point where the building pixels are known. *)
Definition detectFrom (imageData : ImageData) (buildingPixels : list Pixel)
    (tileX tileY pixelX pixelY : Z) : option BuildingGeoJSON :=
  if (pixelX <? 0) || (pixelX >=? width imageData) ||
     (pixelY <? 0) || (pixelY >=? height imageData)
  then None
  else if negb (markerReadable imageData pixelX pixelY) then None
  else
    let nearbyBuildingPixels :=
      filter (λ p, nearMarker pixelX pixelY p = true) buildingPixels in
    if Z.of_nat (length nearbyBuildingPixels) =? 0 then None
    else
      let clusters := clusterPixels nearbyBuildingPixels 3 in
      let polygons := polygonsOf tileX tileY clusters in
      Some {| features := featuresOf clusters polygons |}.

(** [detectBuildingsByColor]. [tileX], [tileY], [pixelX] and [pixelY] are
    the integers the source computes from [(lat, lon)] with its
    floating-point formulas; [None] is the [null] it returns, also from
    its [catch]. The diagnostics sent to [setDebugInfo] are UI state and
    are left out. *)
Definition detectBuildingsByColor (tile : TileFetch)
    (tileX tileY pixelX pixelY : Z) : option BuildingGeoJSON :=
  match tile with
  | FetchFailed | DecodeFailed => None
  | Decoded imageData =>
      detectFrom imageData (pixelsOfType Classifier.TBuilding imageData)
        tileX tileY pixelX pixelY
  end.

(** The clusters the detector converts, for an invocation that reaches
    the clustering step. *)
Definition clustersOf (imageData : ImageData) (pixelX pixelY : Z) : list (list Pixel) :=
  clusterPixels
    (filter (λ p, nearMarker pixelX pixelY p = true)
       (pixelsOfType Classifier.TBuilding imageData)) 3.

(** The error kinds of the specification, in its words: which one, if
    any, an invocation runs into. Pixel data that cannot be read at the
    marker counts as unreadable image bytes. *)
Inductive ErrorKind :=
  FetchFailure | DecodeFailure | OutOfBounds | NoCandidates | NoCluster.

Definition failureCause (tile : TileFetch) (pixelX pixelY : Z) : option ErrorKind :=
  match tile with
  | FetchFailed => Some FetchFailure
  | DecodeFailed => Some DecodeFailure
  | Decoded imageData =>
      if bool_decide (0 ≤ pixelX < width imageData ∧ 0 ≤ pixelY < height imageData)
      then
        if negb (markerReadable imageData pixelX pixelY) then Some DecodeFailure
        else if bool_decide (filter (λ p, nearMarker pixelX pixelY p = true)
                               (pixelsOfType Classifier.TBuilding imageData) = [])
        then Some NoCandidates
        else if bool_decide (Forall (λ c, Z.of_nat (length c) < 5)
                               (clustersOf imageData pixelX pixelY))
        then Some NoCluster
        else None
      else Some OutOfBounds
  end.
End WithProjection.

Arguments Feature : clear implicits.
Arguments BuildingGeoJSON : clear implicits.

(** Fixtures. Tokyo Station (lat 35.681236, lon 139.767125) is on the
    zoom-18 tile (232847, 103226), at its pixel (80, 138); the tiles below
    are 256×256 and white except for building-coloured pixels near it. *)
Definition tokyoTileX : Z := 232847.
Definition tokyoTileY : Z := 103226.
Definition white : Z * Z * Z * Z := (255, 255, 255, 255).
Definition buildingColor : Z * Z * Z * Z := (255, 230, 190, 255).

(** The colour type of a fixture colour. *)
Definition classify (c : Z * Z * Z * Z) : Classifier.ColorType :=
  Classifier.isBuildingColor Classifier.BUILDING_COLORS_map
    (channel 0 c) (channel 1 c) (channel 2 c) None.

Definition whiteTile : ImageData := render 256 256 (λ _ _, white).

(** A decoded image smaller than a tile. *)
Definition smallTile : ImageData := render 64 64 (λ _ _, white).

(** One building-coloured pixel at (72, 130). *)
Definition speck (x y : Z) : Z * Z * Z * Z :=
  if (x =? 72) && (y =? 130) then buildingColor else white.
Definition speckTile : ImageData := render 256 256 speck.

(** The same pixel and a row of five at (78..82, 138). *)
Definition speckAndRow (x y : Z) : Z * Z * Z * Z :=
  if (x =? 72) && (y =? 130) then buildingColor
  else if (y =? 138) && (78 <=? x) && (x <=? 82) then buildingColor
  else white.
Definition speckAndRowTile : ImageData := render 256 256 speckAndRow.

(** A 10×10 block at (75..84, 133..142). *)
Definition block (x y : Z) : Z * Z * Z * Z :=
  if (75 <=? x) && (x <? 85) && (133 <=? y) && (y <? 143) then buildingColor
  else white.
Definition blockTile : ImageData := render 256 256 block.

(** A projection that keeps the tile index and the pixel offset apart. *)
Definition keep (tile : Z) (offset : Num) : Z * Num := (tile, offset).

(** The closed ring around the pixel box (x0, y0)-(x1, y1) under [keep]. *)
Definition ringOf (x0 y0 x1 y1 : Z) : list ((Z * Num) * (Z * Num)) :=
  [ ((tokyoTileX, Finite x0), (tokyoTileY, Finite y0));
    ((tokyoTileX, Finite x1), (tokyoTileY, Finite y0));
    ((tokyoTileX, Finite x1), (tokyoTileY, Finite y1));
    ((tokyoTileX, Finite x0), (tokyoTileY, Finite y1));
    ((tokyoTileX, Finite x0), (tokyoTileY, Finite y0)) ].

(** What the detector returns for [blockTile] and for [speckAndRowTile]. *)
Definition blockResult : BuildingGeoJSON (Z * Num) :=
  {| features := [ {| coordinates := [ringOf 75 133 84 142]; id := 1;
                      building := "color_detected"; source := "color_analysis";
                      pixelCount := 100 |} ] |}.

Definition speckAndRowResult : BuildingGeoJSON (Z * Num) :=
  {| features := [ {| coordinates := [ringOf 78 138 82 138]; id := 1;
                      building := "color_detected"; source := "color_analysis";
                      pixelCount := 1 |} ] |}.

End Detector.

(* ===================================================================== *)
(** * Colours as text ([hexToRgb], the [markerColor] string) and the click
      handler of the flood-fill page ([detectAndFloodFill])               *)
(* ===================================================================== *)

Module HexColor.
Import Raster FloodFill.

(** The value of a character that [[a-f\d]] matches under the [i] flag:
    the code units of [0]..[9], of [a]..[f] and, by the flag, of [A]..[F]. *)
Definition hexValue (c : ascii) : option Z :=
  let unit := Z.of_N (N_of_ascii c) in
  if (48 <=? unit) && (unit <=? 57) then Some (unit - 48)
  else if (97 <=? unit) && (unit <=? 102) then Some (unit - 87)
  else if (65 <=? unit) && (unit <=? 70) then Some (unit - 55)
  else None.

(** [parseInt(group, 16)] on a group of two matched characters; [None] when
    the group does not match. *)
Definition parseHex2 (c1 c2 : ascii) : option Z :=
  match hexValue c1, hexValue c2 with
  | Some hi, Some lo => Some (hi * 16 + lo)
  | _, _ => None
  end.

(** [hexToRgb]: the pattern [/^#?([a-f\d]{2})([a-f\d]{2})([a-f\d]{2})$/i]
    matches an optional [#] followed by exactly six hexadecimal digits;
    anything else gives opaque red. *)
Definition hexToRgb (hex : string) : Color :=
  let digits := match hex with String "#"%char rest => rest | _ => hex end in
  match digits with
  | String c1 (String c2 (String c3 (String c4 (String c5 (String c6 EmptyString))))) =>
      match parseHex2 c1 c2, parseHex2 c3 c4, parseHex2 c5 c6 with
      | Some r, Some g, Some b => mkColor r g b 255
      | _, _, _ => mkColor 255 0 0 255
      end
  | _ => mkColor 255 0 0 255
  end.

(** The digit [toString(16)] prints for a value below sixteen. *)
Definition hexDigit (n : Z) : ascii :=
  if n =? 0 then "0"%char else if n =? 1 then "1"%char
  else if n =? 2 then "2"%char else if n =? 3 then "3"%char
  else if n =? 4 then "4"%char else if n =? 5 then "5"%char
  else if n =? 6 then "6"%char else if n =? 7 then "7"%char
  else if n =? 8 then "8"%char else if n =? 9 then "9"%char
  else if n =? 10 then "a"%char else if n =? 11 then "b"%char
  else if n =? 12 then "c"%char else if n =? 13 then "d"%char
  else if n =? 14 then "e"%char else "f"%char.

Fixpoint hexDigits (fuel : nat) (n : Z) (acc : string) : string :=
  match fuel with
  | O => acc
  | S fuel =>
      let acc := String (hexDigit (n `mod` 16)) acc in
      if n `div` 16 =? 0 then acc else hexDigits fuel (n `div` 16) acc
  end.

(** [n.toString(16)] for an integer [n]. *)
Definition toString16 (n : Z) : string :=
  if n <? 0 then String "-"%char (hexDigits (S (Z.to_nat (Z.log2 (- n)))) (- n) EmptyString)
  else hexDigits (S (Z.to_nat (Z.log2 n))) n EmptyString.

(** [s.padStart(2, '0')]. *)
Definition padStart2 (s : string) : string :=
  match s with
  | EmptyString => "00"
  | String c EmptyString => String "0"%char s
  | _ => s
  end.

(** The [markerColor] string of the detector's diagnostics:
    [`#${r.toString(16).padStart(2, '0')}${g...}${b...}`]. *)
Definition markerColor (markerR markerG markerB : Z) : string :=
  String "#"%char
    (padStart2 (toString16 markerR) +:+ padStart2 (toString16 markerG) +:+
     padStart2 (toString16 markerB)).

(** [ctx.getImageData(x, y, 1, 1)]: the pixel of the canvas at [(x, y)];
    the canvas API gives transparent black outside the canvas. *)
Definition canvasPixel (canvas : ImageData) (px py : Z) : Color :=
  if (px <? 0) || (px >=? width canvas) || (py <? 0) || (py >=? height canvas)
  then mkColor 0 0 0 0
  else
    let index := (py * width canvas + px) * 4 in
    mkColor (default 0 (get (data canvas) index))
            (default 0 (get (data canvas) (index + 1)))
            (default 0 (get (data canvas) (index + 2)))
            (default 0 (get (data canvas) (index + 3))).

(** [detectAndFloodFill], from the point where the pixel coordinates are
    known: the canvas after the call and the count reported in the status
    line, or no count when the clicked pixel is not building-coloured.
    [None] means the fill ran out of its budget. *)
Definition detectAndFloodFill (canvas : ImageData) (pixelX pixelY : Z)
    (fillColor : string) (tolerance : Z) : option (ImageData * option Z) :=
  let clickedColor := canvasPixel canvas pixelX pixelY in
  match buildingType clickedColor tolerance with
  | Classifier.TNone => Some (canvas, None)
  | _ =>
      let fillColorRgb := hexToRgb fillColor in
      match floodFill canvas pixelX pixelY (mkColor 0 0 0 0) fillColorRgb tolerance with
      | Some (fullImageData, processedPixels) => Some (fullImageData, Some processedPixels)
      | None => None
      end
  end.

(** Fixture: a 3×3 canvas in the building reference colour. *)
Definition buildingCanvas : ImageData := render 3 3 (λ _ _, (255, 230, 190, 255)).

End HexColor.

(* ===================================================================== *)
(** * Properties of the colour classifier                                 *)
(* ===================================================================== *)

Module ClassifierProofs.
Import Classifier.

Lemma colorSimilarity_manhattan r0 g0 b0 s :
  colorSimilarity (mkRGB r0 g0 b0) s = manhattan r0 g0 b0 (r s) (g s) (b s).
Proof. reflexivity. Qed.

(** The early-return loop finds a sample exactly when one exists. *)
Lemma matchesAny_someWithin r0 g0 b0 tolerance samples :
  matchesAny (mkRGB r0 g0 b0) tolerance samples = true ↔
  someWithin r0 g0 b0 tolerance samples.
Proof.
  unfold someWithin. induction samples as [|s rest IH]; simpl.
  - split; [discriminate|]. intros (s & Hin & _). by apply elem_of_nil in Hin.
  - rewrite colorSimilarity_manhattan.
    destruct (Z.leb_spec (manhattan r0 g0 b0 (r s) (g s) (b s)) tolerance) as [Hle|Hgt].
    + split; [|done]. intros _. exists s. split; [left|done].
    + rewrite IH. split.
      * intros (s' & Hin & Hs'). exists s'. split; [by right|done].
      * intros (s' & Hin & Hs'). apply elem_of_cons in Hin as [->|Hin]; [lia|].
        by exists s'.
Qed.

Lemma matchesAny_not_someWithin r0 g0 b0 tolerance samples :
  matchesAny (mkRGB r0 g0 b0) tolerance samples = false ↔
  ¬ someWithin r0 g0 b0 tolerance samples.
Proof.
  rewrite <- matchesAny_someWithin.
  destruct (matchesAny _ _ _); split; (done || congruence).
Qed.

(** The exact building reference colour is a building at the default
    tolerance, on both pages. *)
Example reference_colour_is_building :
  isBuildingColor BUILDING_COLORS_map 255 230 190 None = TBuilding ∧
  isBuildingColor BUILDING_COLORS_floodFill 255 230 190 None = TBuilding ∧
  isBuildingColor BUILDING_COLORS_map 255 255 255 None = TNone ∧
  isBuildingColor BUILDING_COLORS_map 255 178 128 (Some 0) = TBoundary.
Proof. repeat split. Qed.

(** C7. For either palette, [isBuildingColor] answers ['building'] exactly
    when some building sample is within Manhattan distance [tolerance] of
    the colour; failing that, ['boundary'] exactly when some boundary sample
    is; failing both, ['none']. A missing tolerance is 50, and the
    classification of a clicked colour does not depend on its alpha. *)
Theorem isBuildingColor_spec (P : Palette) (r0 g0 b0 : Z) (tolerance : option Z) :
  let tol := default 50 tolerance in
  (isBuildingColor P r0 g0 b0 tolerance = TBuilding ↔
     someWithin r0 g0 b0 tol (building P)) ∧
  (isBuildingColor P r0 g0 b0 tolerance = TBoundary ↔
     ¬ someWithin r0 g0 b0 tol (building P) ∧ someWithin r0 g0 b0 tol (boundary P)) ∧
  (isBuildingColor P r0 g0 b0 tolerance = TNone ↔
     ¬ someWithin r0 g0 b0 tol (building P) ∧ ¬ someWithin r0 g0 b0 tol (boundary P)) ∧
  isBuildingColor P r0 g0 b0 None = isBuildingColor P r0 g0 b0 (Some 50) ∧
  (∀ a1 a2 t, FloodFill.buildingType (FloodFill.mkColor r0 g0 b0 a1) t =
              FloodFill.buildingType (FloodFill.mkColor r0 g0 b0 a2) t).
Proof.
  intros tol. unfold isBuildingColor. fold tol.
  rewrite <- !matchesAny_not_someWithin, <- !matchesAny_someWithin.
  destruct (matchesAny _ tol (building P)), (matchesAny _ tol (boundary P));
    repeat split; intros; try done; try tauto; try (destruct_and?; congruence).
Qed.

End ClassifierProofs.

(* ===================================================================== *)
(** * Reads and stores on a clamped byte array                            *)
(* ===================================================================== *)

Module RasterProofs.
Import Raster.

Lemma get_is_Some d i : is_Some (get d i) ↔ 0 ≤ i < Z.of_nat (length d).
Proof.
  unfold get. destruct (Z.ltb_spec i 0) as [Hneg|Hpos].
  - split; [intros [? [=]] | lia].
  - rewrite lookup_lt_is_Some. lia.
Qed.

Lemma length_set d i v : length (set d i v) = length d.
Proof. unfold set. destruct (i <? 0); [done|apply length_insert]. Qed.

Lemma get_set_ne d i j v : i ≠ j → get (set d i v) j = get d j.
Proof.
  intros Hne. unfold get, set.
  destruct (Z.ltb_spec j 0); [done|].
  destruct (Z.ltb_spec i 0); [done|].
  apply list_lookup_insert_ne. lia.
Qed.

Lemma get_set_eq d i v : is_Some (get d i) → get (set d i v) i = Some (clamp v).
Proof.
  rewrite get_is_Some. intros [Hlo Hhi]. unfold get, set.
  destruct (Z.ltb_spec i 0); [lia|].
  apply list_lookup_insert_eq. lia.
Qed.

Lemma clamp_byte v : 0 ≤ v ≤ 255 → clamp v = v.
Proof. unfold clamp. lia. Qed.

(** Reading the rendered fixture gives back the channel it was built from. *)
Lemma get_render w h f px py k :
  0 ≤ px < w → 0 ≤ py < h → 0 ≤ k < 4 →
  get (data (render w h f)) ((py * w + px) * 4 + k) = Some (channel k (f px py)).
Proof.
  intros Hx Hy Hk. unfold get, render; simpl.
  assert (0 ≤ py * w + px < w * h) as Hn by nia.
  destruct (Z.ltb_spec ((py * w + px) * 4 + k) 0); [lia|].
  rewrite list_lookup_fmap, lookup_seqZ_lt by lia. simpl.
  rewrite Z2Nat.id, Z.add_0_l by lia.
  replace (((py * w + px) * 4 + k) `div` 4) with (py * w + px)
    by (apply Z.div_unique with k; lia).
  replace (((py * w + px) * 4 + k) `mod` 4) with k
    by (apply Z.mod_unique with (py * w + px); lia).
  replace ((py * w + px) `mod` w) with px
    by (apply Z.mod_unique with py; lia).
  replace ((py * w + px) `div` w) with py
    by (apply Z.div_unique with px; lia).
  done.
Qed.

End RasterProofs.

(* ===================================================================== *)
(** * Properties of the flood fill                                        *)
(* ===================================================================== *)

Module FloodFillProofs.
Import Raster RasterProofs FloodFill.

(** ** Painting one pixel *)

Lemma isSimilarColor_defined c1 c2 tolerance :
  isSimilarColor c1 c2 tolerance = true →
  is_Some (s_r c1) ∧ is_Some (s_g c1) ∧ is_Some (s_b c1) ∧ 0 ≤ tolerance.
Proof.
  unfold isSimilarColor.
  destruct (s_r c1), (s_g c1), (s_b c1), (s_r c2), (s_g c2), (s_b c2);
    try discriminate.
  intros [H0 _]%andb_true_iff. repeat split; eauto. lia.
Qed.

(** A pixel four or more bytes away is not touched. *)
Lemma sample_paint_ne d index fill j :
  j + 4 ≤ index ∨ index + 4 ≤ j →
  sample (paint d index fill) j = sample d j.
Proof.
  intros Hfar. unfold sample, paint.
  f_equal; rewrite !get_set_ne by lia; done.
Qed.

(** After painting, the pixel has the fill colour on r, g and b. *)
Lemma sameRGB_paint d index fill :
  validColor fill →
  is_Some (s_r (sample d index)) → is_Some (s_g (sample d index)) →
  is_Some (s_b (sample d index)) →
  sameRGB (sample (paint d index fill) index) fill = true.
Proof.
  intros (Hr & Hg & Hb & _) Sr Sg Sb. simpl in Sr, Sg, Sb.
  unfold sameRGB, sample, paint; simpl.
  rewrite (get_set_ne _ (index + 3) index), (get_set_ne _ (index + 2) index),
    (get_set_ne _ (index + 1) index), get_set_eq by (done || lia).
  rewrite (get_set_ne _ (index + 3) (index + 1)),
    (get_set_ne _ (index + 2) (index + 1)), get_set_eq; [|..|lia|lia].
  2:{ rewrite get_is_Some, length_set. by apply get_is_Some. }
  rewrite (get_set_ne _ (index + 3) (index + 2)), get_set_eq; [|..|lia].
  2:{ rewrite get_is_Some, !length_set. by apply get_is_Some. }
  simpl. rewrite !clamp_byte by done. by rewrite !Z.eqb_refl.
Qed.

(** ** The loop, one iteration at a time *)

Section Loop.
Variables (w h : Z) (startColor : Sampled) (fillColor : Color) (tolerance : Z).

Abbreviation loop fuel := (fillLoop fuel w h startColor fillColor tolerance).
Abbreviation offset := (FloodFill.offset w).
Abbreviation discarded := (FloodFill.discarded w h startColor fillColor tolerance).

Lemma fillLoop_step fuel d p stack n :
  loop (S fuel) d (p :: stack) n =
  if discarded d p then loop fuel d stack n
  else loop fuel (paint d (offset p) fillColor) (pushed p stack) (n + 1).
Proof.
  unfold discarded, offset, pushed. simpl.
  destruct ((x p <? 0) || (x p >=? w) || (y p <? 0) || (y p >=? h)); [done|].
  simpl. destruct (isSimilarColor _ _ _); [|done].
  simpl. by destruct (sameRGB _ _).
Qed.

Lemma fillLoop_nil fuel d n : loop fuel d [] n = Some (d, n).
Proof. by destruct fuel. Qed.

Lemma discarded_false d p :
  discarded d p = false →
  (0 ≤ x p < w ∧ 0 ≤ y p < h) ∧
  isSimilarColor (sample d (offset p)) startColor tolerance = true ∧
  sameRGB (sample d (offset p)) fillColor = false.
Proof.
  unfold discarded. rewrite !orb_false_iff, negb_false_iff.
  intros [[[[[??]?]?]?]?]. repeat split; (done || lia).
Qed.

(** More fuel does not change a result. *)
Lemma fillLoop_more fuel fuel' d stack n res :
  (fuel ≤ fuel')%nat → loop fuel d stack n = Some res → loop fuel' d stack n = Some res.
Proof.
  revert fuel' d stack n. induction fuel as [|fuel IH]; intros fuel' d stack n Hle.
  - destruct stack; [|done]. by rewrite !fillLoop_nil.
  - destruct stack as [|p stack]; [by rewrite !fillLoop_nil|].
    destruct fuel' as [|fuel']; [lia|].
    rewrite !fillLoop_step. destruct (discarded d p); apply IH; lia.
Qed.

(** An invariant of the data and the count that painting keeps holds of
    the result. *)
Lemma fillLoop_invariant (I : list Z → Z → Prop) :
  (∀ d n p, I d n → discarded d p = false →
            I (paint d (offset p) fillColor) (n + 1)) →
  ∀ fuel d stack n d' n',
    I d n → loop fuel d stack n = Some (d', n') → I d' n'.
Proof.
  intros Hpaint. induction fuel as [|fuel IH]; intros d stack n d' n' HI.
  - destruct stack; [|done]. rewrite fillLoop_nil. by intros [= <- <-].
  - destruct stack as [|p stack]; [rewrite fillLoop_nil; by intros [= <- <-]|].
    rewrite fillLoop_step. destruct (discarded d p) eqn:Hd.
    + by apply IH.
    + apply IH. by apply Hpaint.
Qed.

(** ** Progress: every paint takes a pixel out of [unfilled] *)

Lemma filter_length_le {A} (P Q : A → Prop) `{!∀ x, Decision (P x)}
    `{!∀ x, Decision (Q x)} (l : list A) :
  (∀ x, Q x → P x) → (length (filter Q l) ≤ length (filter P l))%nat.
Proof.
  intros HQP. induction l as [|x l IH]; [done|].
  rewrite !filter_cons. destruct (decide (Q x)) as [HQ|HQ].
  - rewrite decide_True by auto. simpl. lia.
  - destruct (decide (P x)); simpl; lia.
Qed.

Lemma filter_length_lt {A} (P Q : A → Prop) `{!∀ x, Decision (P x)}
    `{!∀ x, Decision (Q x)} (l : list A) a :
  (∀ x, Q x → P x) → a ∈ l → P a → ¬ Q a →
  (length (filter Q l) < length (filter P l))%nat.
Proof.
  intros HQP Hin HP HQ. induction l as [|x l IH]; [by apply elem_of_nil in Hin|].
  rewrite !filter_cons. apply elem_of_cons in Hin as [<-|Hin].
  - rewrite (decide_True _ _ HP), (decide_False _ _ HQ). simpl.
    pose proof (filter_length_le P Q l HQP). lia.
  - specialize (IH Hin). destruct (decide (Q x)) as [HQx|HQx].
    + rewrite decide_True by auto. simpl. lia.
    + destruct (decide (P x)); simpl; lia.
Qed.

Lemma paint_unfilled d p :
  validColor fillColor → discarded d p = false →
  (length (unfilled w h fillColor (paint d (offset p) fillColor))
   < length (unfilled w h fillColor d))%nat.
Proof.
  intros Hfill (Hin & Hsim & Hne)%discarded_false.
  apply isSimilarColor_defined in Hsim as (Sr & Sg & Sb & _).
  pose proof (sameRGB_paint d (offset p) fillColor Hfill Sr Sg Sb) as Hpainted.
  unfold unfilled. apply filter_length_lt with (a := y p * w + x p).
  - intros k Hk. destruct (decide (k = y p * w + x p)) as [->|Hother].
    + unfold FloodFill.offset in *. congruence.
    + rewrite sample_paint_ne in Hk; [done|]. unfold FloodFill.offset. lia.
  - apply elem_of_seqZ. nia.
  - done.
  - unfold FloodFill.offset in *. congruence.
Qed.

(** The loop returns when the budget covers four iterations for every
    unfilled pixel and one for every stacked point. *)
Lemma fillLoop_returns fuel d stack n :
  validColor fillColor →
  (4 * length (unfilled w h fillColor d) + length stack ≤ fuel)%nat →
  ∃ res, loop fuel d stack n = Some res.
Proof.
  intros Hfill. revert d stack n.
  induction fuel as [|fuel IH]; intros d stack n Hfuel.
  - destruct stack; [by eexists|simpl in Hfuel; lia].
  - destruct stack as [|p stack]; [by eexists|].
    rewrite fillLoop_step. destruct (discarded d p) eqn:Hd.
    + apply IH. simpl in Hfuel. lia.
    + apply IH. pose proof (paint_unfilled d p Hfill Hd). simpl in *. lia.
Qed.

(** The count grows by one for every pixel that leaves [unfilled]. *)
Lemma fillLoop_count fuel d stack n d' n' :
  validColor fillColor → loop fuel d stack n = Some (d', n') →
  n ≤ n' ∧ n' + Z.of_nat (length (unfilled w h fillColor d'))
           ≤ n + Z.of_nat (length (unfilled w h fillColor d)).
Proof.
  intros Hfill.
  apply (fillLoop_invariant
    (λ d1 n1, n ≤ n1 ∧ n1 + Z.of_nat (length (unfilled w h fillColor d1))
                       ≤ n + Z.of_nat (length (unfilled w h fillColor d)))).
  - intros d1 n1 p [Hn Hu] Hd. pose proof (paint_unfilled d1 p Hfill Hd). lia.
  - lia.
Qed.

(** A pixel that has the fill colour keeps it. *)
Lemma fillLoop_keeps_filled q fuel d stack n d' n' :
  sameRGB (sample d (offset q)) fillColor = true →
  loop fuel d stack n = Some (d', n') →
  sameRGB (sample d' (offset q)) fillColor = true.
Proof.
  apply (fillLoop_invariant (λ d1 _, sameRGB (sample d1 (offset q)) fillColor = true)).
  intros d1 _ p Hq (_ & _ & Hne)%discarded_false.
  destruct (decide (offset p = offset q)) as [Heq|Hother].
  - rewrite Heq in Hne. congruence.
  - rewrite sample_paint_ne; [done|]. unfold FloodFill.offset in *. lia.
Qed.

(** Every pixel either is what it was, or took the fill colour on r, g, b
    and did not have it before. *)
Lemma fillLoop_changes fuel d stack n d' n' :
  validColor fillColor → loop fuel d stack n = Some (d', n') →
  ∀ k, sample d' (k * 4) = sample d (k * 4) ∨
       (sameRGB (sample d' (k * 4)) fillColor = true ∧
        sameRGB (sample d (k * 4)) fillColor = false).
Proof.
  intros Hfill.
  apply (fillLoop_invariant
    (λ d1 _, ∀ k, sample d1 (k * 4) = sample d (k * 4) ∨
                  (sameRGB (sample d1 (k * 4)) fillColor = true ∧
                   sameRGB (sample d (k * 4)) fillColor = false))).
  - intros d1 _ p HI (_ & Hsim & Hne)%discarded_false k.
    apply isSimilarColor_defined in Hsim as (Sr & Sg & Sb & _).
    pose proof (sameRGB_paint d1 (offset p) fillColor Hfill Sr Sg Sb) as Hpainted.
    destruct (decide (k = y p * w + x p)) as [->|Hother].
    + right. split; [done|].
      destruct (HI (y p * w + x p)) as [Hsame|[Hfilled _]].
      * by rewrite <- Hsame.
      * unfold FloodFill.offset in Hne. congruence.
    + rewrite sample_paint_ne; [apply HI|]. unfold FloodFill.offset. lia.
  - intros k. by left.
Qed.
End Loop.

(** ** The whole call *)

Lemma imageData_eta img : mkImageData (width img) (height img) (data img) = img.
Proof. by destruct img. Qed.

Lemma budget_covers img fill :
  (4 * length (unfilled (width img) (height img) fill (data img)) + 1
   ≤ budget img)%nat.
Proof.
  unfold budget, unfilled.
  pose proof (length_filter
    (λ k, sameRGB (sample (data img) (k * 4)) fill = false)
    (seqZ 0 (width img * height img))) as Hle.
  rewrite length_seqZ in Hle. lia.
Qed.

(** Either the seed already has the fill colour and the call returns at
    once, or the loop runs and returns. *)
Lemma floodFillWith_cases fuel img sx sy target fill tol :
  validColor fill → (budget img ≤ fuel)%nat →
  (sameRGB (pixelAt img sx sy) fill = true ∧
   floodFillWith fuel img sx sy target fill tol = Some (img, 0)) ∨
  (sameRGB (pixelAt img sx sy) fill = false ∧
   ∃ d' n,
     fillLoop fuel (width img) (height img) (pixelAt img sx sy) fill tol
       (data img) [mkPoint sx sy] 0 = Some (d', n) ∧
     floodFillWith fuel img sx sy target fill tol =
       Some (mkImageData (width img) (height img) d', n)).
Proof.
  intros Hfill Hfuel. unfold floodFillWith. fold (pixelAt img sx sy).
  destruct (sameRGB (pixelAt img sx sy) fill) eqn:Hseed; [by left|right].
  split; [done|].
  destruct (fillLoop_returns (width img) (height img) (pixelAt img sx sy) fill tol
              fuel (data img) [mkPoint sx sy] 0 Hfill) as [[d' n] Hloop].
  { pose proof (budget_covers img fill). simpl. lia. }
  exists d', n. by rewrite Hloop.
Qed.

(** The call returns, whatever the seed; the count is between zero and the
    number of pixels, and a larger budget gives the same result. *)
Lemma floodFill_returns img sx sy target fill tol :
  validColor fill →
  ∃ img' n,
    floodFill img sx sy target fill tol = Some (img', n) ∧
    width img' = width img ∧ height img' = height img ∧
    0 ≤ n ≤ Z.max 0 (width img * height img) ∧
    ∀ fuel, (budget img ≤ fuel)%nat →
            floodFillWith fuel img sx sy target fill tol = Some (img', n).
Proof.
  intros Hfill. unfold floodFill.
  destruct (floodFillWith_cases (budget img) img sx sy target fill tol Hfill)
    as [[Hseed Hres]|[Hseed (d' & n & Hloop & Hres)]]; [done|..].
  - exists img, 0. repeat split; [done|lia|lia|].
    intros fuel Hfuel.
    destruct (floodFillWith_cases fuel img sx sy target fill tol Hfill Hfuel)
      as [[_ ?]|[? _]]; [done|congruence].
  - exists (mkImageData (width img) (height img) d'), n.
    destruct (fillLoop_count _ _ _ _ _ _ _ _ _ _ _ Hfill Hloop) as [Hlo Hhi].
    pose proof (budget_covers img fill) as Hb. unfold budget in Hb.
    repeat split; [done|lia|lia|].
    intros fuel Hfuel. unfold floodFillWith. fold (pixelAt img sx sy).
    rewrite Hseed.
    by rewrite (fillLoop_more _ _ _ _ _ _ _ _ _ _ _ Hfuel Hloop).
Qed.

(** The specification's scenario: a 4×4 white buffer filled with red from
    (0, 0) at tolerance 10 becomes red, and 16 is returned. *)
Example floodFill_white4x4 :
  floodFill white4x4 0 0 black0 red 10 = Some (red4x4, 16).
Proof. vm_compute. reflexivity. Qed.

(** Why the fill colour has to be byte-valued: a channel of 300 is stored
    as 255, so a painted pixel never compares equal to the fill colour; two
    neighbouring pixels within the tolerance then repaint each other and the
    budget runs out. *)
Example floodFill_clamped_fill_runs_out :
  floodFill white2x1 0 0 black0 overRed 500 = None ∧
  floodFillWith 1000 white2x1 0 0 black0 overRed 500 = None.
Proof. split; vm_compute; reflexivity. Qed.

(** C5. For every buffer, seed, tolerance and (byte-valued) fill colour the
    call returns: the loop ends within the budget of one iteration plus four
    per pixel, any larger budget gives the same result, and the returned
    count is at most the number of pixels, each being painted at most once. *)
Theorem floodFill_terminates img sx sy target fill tol :
  validColor fill →
  ∃ img' n,
    floodFill img sx sy target fill tol = Some (img', n) ∧
    0 ≤ n ≤ Z.max 0 (width img * height img) ∧
    ∀ fuel, (budget img ≤ fuel)%nat →
            floodFillWith fuel img sx sy target fill tol = Some (img', n).
Proof.
  intros Hfill.
  destruct (floodFill_returns img sx sy target fill tol Hfill)
    as (img' & n & Hres & _ & _ & Hn & Hmore).
  by exists img', n.
Qed.

Lemma floodFill_terminates_witness :
  ∃ img' n,
    floodFill white4x4 0 0 black0 red 10 = Some (img', n) ∧
    0 ≤ n ≤ Z.max 0 (width white4x4 * height white4x4) ∧
    ∀ fuel, (budget white4x4 ≤ fuel)%nat →
            floodFillWith fuel white4x4 0 0 black0 red 10 = Some (img', n).
Proof.
  apply (floodFill_terminates white4x4 0 0 black0 red 10).
  unfold validColor, red; simpl; lia.
Defined.

(** The call on a seed outside the buffer: nothing is painted. *)
Lemma floodFill_outside img sx sy target fill tol :
  ¬ inBounds img sx sy →
  floodFill img sx sy target fill tol = Some (img, 0).
Proof.
  intros Hout. unfold floodFill, floodFillWith, budget.
  destruct (sameRGB _ fill); [done|].
  rewrite fillLoop_step.
  assert (discarded (width img) (height img)
            (sample (data img) ((sy * width img + sx) * 4)) fill tol
            (data img) (mkPoint sx sy) = true) as ->.
  { unfold discarded, inBounds in *. simpl.
    destruct (Z.ltb_spec sx 0); [done|].
    destruct (Z.geb_spec sx (width img)); [done|].
    destruct (Z.ltb_spec sy 0); [done|].
    destruct (Z.geb_spec sy (height img)); [done|]. lia. }
  by rewrite fillLoop_nil, imageData_eta.
Qed.

(** C2, as the code refutes it: on the 4×4 white buffer the seed (4, 0) is
    outside the buffer, and the call returns the normal result 0 with the
    buffer as it was. *)
Lemma floodFill_outside_seed_returns_zero :
  ¬ inBounds white4x4 4 0 ∧
  floodFill white4x4 4 0 black0 red 10 = Some (white4x4, 0).
Proof.
  split; [|vm_compute; reflexivity].
  unfold inBounds, white4x4; simpl. lia.
Qed.

(** C2, amended. [floodFill] has no failure mode: for every buffer, seed,
    tolerance and byte-valued fill colour it returns a count that is not
    negative, and for a seed outside the buffer it returns 0 and leaves the
    buffer as it was. *)
Theorem floodFill_never_fails img sx sy target fill tol :
  validColor fill →
  ∃ img' n,
    floodFill img sx sy target fill tol = Some (img', n) ∧ 0 ≤ n ∧
    (¬ inBounds img sx sy → img' = img ∧ n = 0).
Proof.
  intros Hfill.
  destruct (floodFill_returns img sx sy target fill tol Hfill)
    as (img' & n & Hres & _ & _ & Hn & _).
  exists img', n. split; [done|]. split; [lia|].
  intros Hout. rewrite (floodFill_outside _ _ _ _ _ _ Hout) in Hres.
  by injection Hres as <- <-.
Qed.

Lemma floodFill_never_fails_witness :
  ∃ img' n,
    floodFill white4x4 4 0 black0 red 10 = Some (img', n) ∧ 0 ≤ n ∧
    (¬ inBounds white4x4 4 0 → img' = white4x4 ∧ n = 0).
Proof.
  apply (floodFill_never_fails white4x4 4 0 black0 red 10).
  unfold validColor, red; simpl; lia.
Defined.

(** C6. Running [floodFill] again on the buffer it produced, with the same
    seed, fill colour and tolerance, returns 0 and leaves that buffer as it
    is. This holds for every seed, inside the buffer or not. *)
Theorem floodFill_idempotent img sx sy target fill tol :
  validColor fill →
  ∃ img1 n1,
    floodFill img sx sy target fill tol = Some (img1, n1) ∧
    floodFill img1 sx sy target fill tol = Some (img1, 0).
Proof.
  intros Hfill. unfold floodFill.
  destruct (floodFillWith_cases (budget img) img sx sy target fill tol Hfill)
    as [[Hseed Hres]|[Hseed (d' & n & Hloop & Hres)]]; [done|..].
  { by exists img, 0. }
  unfold budget in Hloop at 1. rewrite fillLoop_step in Hloop.
  destruct (discarded _ _ _ _ _ _ _) eqn:Hd.
  - rewrite fillLoop_nil in Hloop. injection Hloop as <- <-.
    rewrite imageData_eta in Hres. by exists img, 0.
  - exists (mkImageData (width img) (height img) d'), n. split; [done|].
    apply discarded_false in Hd as (_ & Hsim & _).
    apply isSimilarColor_defined in Hsim as (Sr & Sg & Sb & _).
    pose proof (sameRGB_paint _ _ _ Hfill Sr Sg Sb) as Hpainted.
    pose proof (fillLoop_keeps_filled _ _ _ _ _ (mkPoint sx sy) _ _ _ _ _ _
                  Hpainted Hloop) as Hkept.
    unfold floodFillWith, FloodFill.offset in *. simpl in *.
    by rewrite Hkept.
Qed.

Lemma floodFill_idempotent_witness :
  ∃ img1 n1,
    floodFill white4x4 0 0 black0 red 10 = Some (img1, n1) ∧
    floodFill img1 0 0 black0 red 10 = Some (img1, 0).
Proof.
  apply (floodFill_idempotent white4x4 0 0 black0 red 10).
  unfold validColor, red; simpl; lia.
Defined.

(** C10. Only r, g and b are compared. When the seed pixel has the fill
    colour on r, g and b the call returns 0 and the buffer is as it was,
    whatever the two alphas are; and in the result of any call a pixel whose
    r, g and b are what they were has its alpha as it was too. *)
Theorem floodFill_ignores_alpha img sx sy target fill tol :
  validColor fill →
  (s_r (pixelAt img sx sy) = Some (r fill) →
   s_g (pixelAt img sx sy) = Some (g fill) →
   s_b (pixelAt img sx sy) = Some (b fill) →
   floodFill img sx sy target fill tol = Some (img, 0)) ∧
  (∀ img' n px py,
     floodFill img sx sy target fill tol = Some (img', n) →
     s_r (pixelAt img' px py) = s_r (pixelAt img px py) →
     s_g (pixelAt img' px py) = s_g (pixelAt img px py) →
     s_b (pixelAt img' px py) = s_b (pixelAt img px py) →
     pixelAt img' px py = pixelAt img px py).
Proof.
  intros Hfill. split.
  - intros Hr Hg Hb. unfold floodFill, floodFillWith.
    fold (pixelAt img sx sy). unfold sameRGB. rewrite Hr, Hg, Hb. simpl.
    by rewrite !Z.eqb_refl.
  - intros img' n px py Hres Hr Hg Hb. unfold floodFill in Hres.
    destruct (floodFillWith_cases (budget img) img sx sy target fill tol Hfill)
      as [[_ Hcall]|[_ (d' & n' & Hloop & Hcall)]]; [done|..];
      rewrite Hcall in Hres; injection Hres as <- <-; [done|].
    destruct (fillLoop_changes _ _ _ _ _ _ _ _ _ _ _ Hfill Hloop
                (py * width img + px)) as [Hsame|[Hnew Hold]]; [done|].
    unfold pixelAt, sameRGB in *. simpl in *.
    rewrite Hr, Hg, Hb in Hnew. congruence.
Qed.

Lemma floodFill_ignores_alpha_witness :
  floodFill translucentRed2x2 0 0 black0 red 10 = Some (translucentRed2x2, 0).
Proof.
  apply (floodFill_ignores_alpha translucentRed2x2 0 0 black0 red 10).
  - unfold validColor, red; simpl; lia.
  - reflexivity.
  - reflexivity.
  - reflexivity.
Defined.

End FloodFillProofs.

(* ===================================================================== *)
(** * Properties of the pixel clustering                                  *)
(* ===================================================================== *)

Module ClusteringProofs.
Import Clustering.

(** ** The key of a pixel determines the pixel *)

Lemma beforeComma_app s t :
  commaFree s = true → beforeComma (s +:+ "," +:+ t) = s.
Proof.
  induction s as [|c s IH]; simpl; [done|].
  intros [Hc Hs]%andb_true_iff. apply negb_true_iff in Hc. rewrite Hc.
  by rewrite IH.
Qed.

Lemma afterComma_app s t :
  commaFree s = true → afterComma (s +:+ "," +:+ t) = t.
Proof.
  induction s as [|c s IH]; simpl; [done|].
  intros [Hc Hs]%andb_true_iff. apply negb_true_iff in Hc. rewrite Hc.
  by apply IH.
Qed.

Lemma commaFree_pretty_N_go x s :
  commaFree s = true → commaFree (pretty_N_go x s) = true.
Proof.
  revert s. induction (N.lt_wf_0 x) as [x _ IH]; intros s Hs.
  assert (x = 0 ∨ 0 < x)%N as [->|Hpos] by lia.
  - by rewrite pretty_N_go_0.
  - rewrite pretty_N_go_step by done. apply IH.
    + by apply N.div_lt.
    + simpl. rewrite Hs. unfold pretty_N_char. by repeat case_match.
Qed.

Lemma commaFree_pretty_Z (z : Z) : commaFree (pretty z) = true.
Proof.
  destruct z as [|q|q]; [done|..]; unfold pretty, pretty_Z, pretty, pretty_positive,
    pretty, pretty_N; simpl; by apply commaFree_pretty_N_go.
Qed.

#[global] Instance key_inj : Inj (=) (=) key.
Proof.
  intros [x1 y1] [x2 y2] Hkey. unfold key in Hkey; simpl in Hkey.
  pose proof (f_equal beforeComma Hkey) as Hx.
  pose proof (f_equal afterComma Hkey) as Hy.
  rewrite !beforeComma_app in Hx by apply commaFree_pretty_Z.
  rewrite !afterComma_app in Hy by apply commaFree_pretty_Z.
  by rewrite (inj pretty _ _ Hx), (inj pretty _ _ Hy).
Qed.

Example key_example : key (12, -3) = "12,-3".
Proof. reflexivity. Qed.

Lemma keys_nil : keys [] = ∅.
Proof. done. Qed.

Lemma keys_cons p l : keys (p :: l) = {[ key p ]} ∪ keys l.
Proof. done. Qed.

Lemma keys_app l1 l2 : keys (l1 ++ l2) = keys l1 ∪ keys l2.
Proof. unfold keys. rewrite fmap_app. apply list_to_set_app_L. Qed.

Lemma elem_of_keys p l : key p ∈ keys l ↔ p ∈ l.
Proof.
  unfold keys. rewrite elem_of_list_to_set, list_elem_of_fmap. split.
  - intros (q & Hkey & Hq). by rewrite (inj key _ _ Hkey).
  - intros Hp. by exists p.
Qed.

Lemma size_keys l : (size (keys l) ≤ length l)%nat.
Proof.
  induction l as [|p l IH]; [done|].
  rewrite keys_cons, size_union_alt, size_singleton. simpl.
  pose proof (subseteq_size (keys l ∖ {[key p]}) (keys l)) as Hle.
  assert (keys l ∖ {[key p]} ⊆ keys l) as Hsub by set_solver.
  specialize (Hle Hsub). lia.
Qed.

(** ** One run of the [while] loop *)

Section Grow.
Variables (pixels : list Pixel) (maxDistance : Z).

Lemma neighbors_subseteq visited current :
  neighbors pixels maxDistance visited current ⊆ pixels.
Proof. intros p. unfold neighbors. rewrite list_elem_of_filter. tauto. Qed.

Lemma length_neighbors visited current :
  (length (neighbors pixels maxDistance visited current) ≤ length pixels)%nat.
Proof. apply length_filter. Qed.

Lemma grow_nil fuel visited cluster :
  grow fuel pixels maxDistance visited cluster [] = Some (visited, cluster).
Proof. by destruct fuel. Qed.

Lemma grow_more fuel fuel' visited cluster queue res :
  (fuel ≤ fuel')%nat →
  grow fuel pixels maxDistance visited cluster queue = Some res →
  grow fuel' pixels maxDistance visited cluster queue = Some res.
Proof.
  revert fuel' visited cluster queue.
  induction fuel as [|fuel IH]; intros fuel' visited cluster queue Hle.
  - destruct queue; [|done]. by rewrite !grow_nil.
  - destruct queue as [|current queue]; [by rewrite !grow_nil|].
    destruct fuel' as [|fuel']; [lia|]. simpl.
    destruct (decide (key current ∈ visited)); apply IH; lia.
Qed.

(** What one run adds: a list [new] of pixels of the input, with pairwise
    different keys that were not visited before; afterwards every pixel that
    was in the queue is visited. *)
Lemma grow_spec fuel visited cluster queue visited' cluster' :
  queue ⊆ pixels →
  grow fuel pixels maxDistance visited cluster queue = Some (visited', cluster') →
  ∃ new,
    cluster' = cluster ++ new ∧ visited' = keys new ∪ visited ∧
    NoDup (key <$> new) ∧
    (∀ p, p ∈ new → p ∈ pixels ∧ key p ∉ visited) ∧
    (∀ p, p ∈ queue → key p ∈ visited').
Proof.
  assert (∀ v c, ∃ new : list Pixel,
            c = c ++ new ∧ v = keys new ∪ v ∧ NoDup (key <$> new) ∧
            (∀ p, p ∈ new → p ∈ pixels ∧ key p ∉ v) ∧
            (∀ p, p ∈ @nil Pixel → key p ∈ v)) as Hdone.
  { intros v c. exists []. rewrite app_nil_r, keys_nil. split_and!.
    - done.
    - set_solver.
    - constructor.
    - by intros p ?%elem_of_nil.
    - by intros p ?%elem_of_nil. }
  revert visited cluster queue.
  induction fuel as [|fuel IH]; intros visited cluster queue Hqueue Hgrow.
  { destruct queue; [|done]. rewrite grow_nil in Hgrow. injection Hgrow as <- <-.
    apply Hdone. }
  destruct queue as [|current queue].
  { rewrite grow_nil in Hgrow. injection Hgrow as <- <-. apply Hdone. }
  assert (current ∈ pixels) as Hcurrent by (apply Hqueue; left).
  assert (queue ⊆ pixels) as Hrest by (intros p Hp; apply Hqueue; by right).
  simpl in Hgrow. destruct (decide (key current ∈ visited)) as [Hseen|Hfresh].
  - apply IH in Hgrow as (new & -> & -> & Hnd & Hnew & Hq); [|done].
    exists new. split_and!; try done.
    intros p [->|Hp]%elem_of_cons; [set_solver|by apply Hq].
  - apply IH in Hgrow as (new & -> & -> & Hnd & Hnew & Hq).
    2:{ intros p [Hp|Hp]%elem_of_app; [by apply Hrest|by apply neighbors_subseteq in Hp]. }
    exists (current :: new). rewrite keys_cons, <- app_assoc. simpl.
    split_and!.
    + done.
    + set_solver.
    + constructor; [|done].
      intros (q & Hkey & Hq')%list_elem_of_fmap.
      apply Hnew in Hq' as [_ Hq']. set_solver.
    + intros p [->|Hp]%elem_of_cons; [done|].
      apply Hnew in Hp as [Hin Hp]. split; [done|set_solver].
    + intros p [->|Hp]%elem_of_cons; [set_solver|].
      apply Hq. set_solver.
Qed.

(** The budget that one run needs: a pixel is marked at most once, and
    marking pushes at most the whole input. *)
Lemma grow_returns fuel visited cluster queue :
  queue ⊆ pixels →
  (S (length pixels) * size (keys pixels ∖ visited) + length queue ≤ fuel)%nat →
  ∃ res, grow fuel pixels maxDistance visited cluster queue = Some res.
Proof.
  revert visited cluster queue.
  induction fuel as [|fuel IH]; intros visited cluster queue Hqueue Hfuel.
  - destruct queue; [by eexists|simpl in Hfuel; lia].
  - destruct queue as [|current queue]; [by eexists|].
    simpl. destruct (decide (key current ∈ visited)) as [Hseen|Hfresh].
    + apply IH; [set_solver|]. simpl in Hfuel. lia.
    + apply IH.
      { intros p [Hp|Hp]%elem_of_app; [set_solver|by apply neighbors_subseteq in Hp]. }
      assert (keys pixels ∖ visited =
              {[key current]} ∪ keys pixels ∖ ({[key current]} ∪ visited)) as Hsplit.
      { apply set_eq. intros k. assert (key current ∈ keys pixels).
        { apply elem_of_keys, Hqueue. left. }
        destruct (decide (k = key current)) as [->|]; set_solver. }
      rewrite Hsplit, size_union, size_singleton in Hfuel by set_solver.
      rewrite length_app.
      pose proof (length_neighbors ({[key current]} ∪ visited) current).
      simpl in Hfuel. lia.
Qed.

(** ** The outer loop *)

Lemma sweep_more fuel fuel' rest visited clusters res :
  (fuel ≤ fuel')%nat →
  sweep fuel pixels maxDistance rest visited clusters = Some res →
  sweep fuel' pixels maxDistance rest visited clusters = Some res.
Proof.
  intros Hle. revert visited clusters.
  induction rest as [|pixel rest IH]; intros visited clusters; [done|].
  simpl. destruct (decide (key pixel ∈ visited)); [apply IH|].
  destruct (grow fuel pixels maxDistance visited [] [pixel]) as [[v c]|] eqn:Hgrow;
    [|done].
  rewrite (grow_more _ _ _ _ _ _ Hle Hgrow). apply IH.
Qed.

Lemma sweep_returns fuel rest visited clusters :
  rest ⊆ pixels → (budget pixels ≤ fuel)%nat →
  ∃ res, sweep fuel pixels maxDistance rest visited clusters = Some res.
Proof.
  intros Hrest Hfuel. revert visited clusters Hrest.
  induction rest as [|pixel rest IH]; intros visited clusters Hrest; [by eexists|].
  assert (rest ⊆ pixels) as Hrest' by (intros p Hp; apply Hrest; by right).
  simpl. destruct (decide (key pixel ∈ visited)); [by apply IH|].
  destruct (grow_returns fuel visited [] [pixel]) as [[v c] ->].
  - intros p ->%list_elem_of_singleton. apply Hrest. left.
  - pose proof (size_keys pixels).
    pose proof (subseteq_size (keys pixels ∖ visited) (keys pixels)) as Hsub.
    assert (keys pixels ∖ visited ⊆ keys pixels) as Hs by set_solver.
    specialize (Hsub Hs). unfold budget in Hfuel. simpl length. nia.
  - by apply IH.
Qed.

Lemma sweep_spec fuel rest visited clusters res :
  rest ⊆ pixels → consistent pixels visited clusters →
  sweep fuel pixels maxDistance rest visited clusters = Some res →
  consistent pixels (keys (concat res)) res ∧
  visited ⊆ keys (concat res) ∧
  (∀ p, p ∈ rest → key p ∈ keys (concat res)).
Proof.
  revert visited clusters.
  induction rest as [|pixel rest IH]; intros visited clusters Hrest Hcons Hsweep.
  { simpl in Hsweep. injection Hsweep as <-. destruct Hcons as (-> & ? & ? & ?).
    split_and!; try done. by intros p ?%elem_of_nil. }
  assert (rest ⊆ pixels) as Hrest' by (intros p Hp; apply Hrest; by right).
  simpl in Hsweep. destruct (decide (key pixel ∈ visited)) as [Hseen|Hfresh].
  { destruct (IH _ _ Hrest' Hcons Hsweep) as (Hc & Hmono & Hall).
    split_and!; try done.
    intros p [->|Hp]%elem_of_cons; [by apply Hmono|by apply Hall]. }
  destruct (grow fuel pixels maxDistance visited [] [pixel]) as [[v c]|] eqn:Hgrow;
    [|done].
  apply grow_spec in Hgrow as (new & -> & -> & Hnd & Hnew & Hq).
  2:{ intros p ->%list_elem_of_singleton. apply Hrest. left. }
  simpl in Hsweep.
  assert (key pixel ∈ keys new) as Hpixel.
  { specialize (Hq pixel). rewrite elem_of_union in Hq.
    destruct Hq as [?|?]; [left|done|done]. }
  assert (new ≠ []) as Hne by (intros ->; set_solver).
  destruct new as [|p0 new]; [done|]. simpl in Hsweep.
  destruct Hcons as (Hv & Hnd0 & Hin0 & Hne0).
  apply IH in Hsweep as (Hc & Hmono & Hall); [|done|].
  - split_and!; try done; [set_solver|].
    intros p [->|Hp]%elem_of_cons; [set_solver|by apply Hall].
  - rewrite Hv. unfold consistent. rewrite concat_app. simpl. rewrite app_nil_r.
    split_and!.
    + by rewrite keys_app, (comm_L (∪)).
    + rewrite fmap_app. apply NoDup_app. split_and!; [done| |done].
      intros k Hk (q & -> & Hq')%list_elem_of_fmap.
      apply Hnew in Hq' as [_ Hq']. apply Hq'. rewrite Hv.
      by apply elem_of_list_to_set.
    + intros p [Hp|Hp]%elem_of_app; [by apply Hin0|by apply Hnew].
    + apply Forall_app. split; [done|]. by repeat constructor.
Qed.
End Grow.

(** ** The whole function *)

Lemma clusterPixelsWith_enough fuel pixels maxDistance :
  (budget pixels ≤ fuel)%nat →
  clusterPixelsWith fuel pixels maxDistance = Some (clusterPixels pixels maxDistance).
Proof.
  intros Hfuel. unfold clusterPixels, clusterPixelsWith.
  destruct (sweep_returns pixels maxDistance (budget pixels) pixels ∅ [])
    as [res Hres]; [done|done|].
  rewrite Hres. simpl. by apply (sweep_more _ _ _ _ _ _ _ _ Hfuel).
Qed.

Lemma elem_of_concat {A} (a : A) (ls : list (list A)) :
  a ∈ concat ls ↔ ∃ l, l ∈ ls ∧ a ∈ l.
Proof.
  induction ls as [|l0 ls IH]; simpl.
  - split; [by intros ?%elem_of_nil|]. by intros (l & ?%elem_of_nil & _).
  - rewrite elem_of_app, IH. split.
    + intros [Ha|(l & Hl & Ha)]; [exists l0|exists l]; split; (done || by constructor).
    + intros (l & [->|Hl]%elem_of_cons & Ha); [by left|right; by exists l].
Qed.

Lemma NoDup_concat_disjoint {A} (ls : list (list A)) i j l1 l2 a :
  NoDup (concat ls) → ls !! i = Some l1 → ls !! j = Some l2 →
  a ∈ l1 → a ∈ l2 → i = j.
Proof.
  revert i j. induction ls as [|l ls IH]; intros i j Hnd Hi Hj H1 H2; [done|].
  simpl in Hnd. apply NoDup_app in Hnd as (_ & Hdisj & Hnd).
  assert (∀ k l', ls !! k = Some l' → a ∈ l' → a ∈ concat ls) as Hin.
  { intros k l' Hk Ha. apply elem_of_concat. exists l'. split; [|done].
    by eapply list_elem_of_lookup_2. }
  destruct i as [|i], j as [|j]; simpl in *; simplify_eq; [done|..].
  - destruct (Hdisj a H1). by eapply Hin.
  - destruct (Hdisj a H2). by eapply Hin.
  - f_equal. by apply IH.
Qed.

(** C4. The clusters returned for any input and any [maxDistance] are a
    partition of the input: [clusterPixels] returns them within its budget (and
    the same for any larger one), a pixel is in the input exactly when it is
    in some cluster, no pixel occurs twice in the clusters taken together, so
    none is in two clusters, and no cluster is empty; for an input without
    repeated pixels the clusters together are a rearrangement of it. *)
Theorem clusterPixels_partition (pixels : list Pixel) (maxDistance : Z) :
  let clusters := clusterPixels pixels maxDistance in
  (∀ fuel, (budget pixels ≤ fuel)%nat →
           clusterPixelsWith fuel pixels maxDistance = Some clusters) ∧
  (∀ p, p ∈ pixels ↔ ∃ c, c ∈ clusters ∧ p ∈ c) ∧
  NoDup (concat clusters) ∧
  (∀ i j c1 c2 p, clusters !! i = Some c1 → clusters !! j = Some c2 →
                  p ∈ c1 → p ∈ c2 → i = j) ∧
  Forall (λ c, c ≠ []) clusters ∧
  (NoDup pixels → concat clusters ≡ₚ pixels).
Proof.
  intros clusters.
  pose proof (clusterPixelsWith_enough (budget pixels) pixels maxDistance
                (Nat.le_refl _)) as Hrun.
  fold clusters in Hrun. unfold clusterPixelsWith in Hrun.
  apply sweep_spec in Hrun as ((_ & Hnd & Hin & Hne) & _ & Hall); [|done|].
  2:{ split_and!; [done|constructor|by intros p ?%elem_of_nil|constructor]. }
  assert (NoDup (concat clusters)) as Hnd' by (by apply NoDup_fmap_1 in Hnd).
  split_and!.
  - intros fuel Hfuel. by apply clusterPixelsWith_enough.
  - intros p. rewrite <- elem_of_concat. split; [|apply Hin].
    intros Hp. by apply elem_of_keys, Hall.
  - done.
  - intros i j c1 c2 p. by apply NoDup_concat_disjoint.
  - done.
  - intros Hpixels. apply NoDup_Permutation; [done|done|].
    intros p. split; [apply Hin|]. intros Hp. by apply elem_of_keys, Hall.
Qed.

(** Two runs of three pixels each, and a pixel on its own. *)
Example clusterPixels_example :
  clusterPixels [(0, 0); (10, 10); (1, 0); (11, 10); (2, 0); (50, 50); (12, 10)] 3 =
  [ [(0, 0); (1, 0); (2, 0)]; [(10, 10); (11, 10); (12, 10)]; [(50, 50)] ].
Proof. vm_compute. reflexivity. Qed.

End ClusteringProofs.

(* ===================================================================== *)
(** * Properties of the building detector                                 *)
(* ===================================================================== *)

Module DetectorProofs.
Import Raster RasterProofs Clustering ClusteringProofs Detector.

(** ** Scanning a rendered tile *)

Lemma elem_of_scanOrder w h p :
  p ∈ scanOrder w h ↔ 0 ≤ p.1 < w ∧ 0 ≤ p.2 < h.
Proof.
  unfold scanOrder. rewrite list_elem_of_bind. split.
  - intros (y & (x & ->%list_elem_of_singleton & Hx%elem_of_seqZ)%list_elem_of_bind
              & Hy%elem_of_seqZ). simpl. lia.
  - intros [Hx Hy]. exists p.2. rewrite elem_of_seqZ. split; [|lia].
    apply list_elem_of_bind. exists p.1. rewrite elem_of_seqZ.
    split; [|lia]. destruct p. by left.
Qed.

Lemma filter_ext_in {A} (P Q : A → Prop) `{!∀ x, Decision (P x)}
    `{!∀ x, Decision (Q x)} (l : list A) :
  (∀ x, x ∈ l → P x ↔ Q x) → filter P l = filter Q l.
Proof.
  induction l as [|a l IH]; intros Hext; [done|].
  rewrite !filter_cons.
  assert (filter P l = filter Q l) as -> by (apply IH; intros; apply Hext; by right).
  assert (P a ↔ Q a) as Ha by (apply Hext; left).
  destruct (decide (P a)), (decide (Q a)); tauto.
Qed.

Lemma colorTypeAt_render w h f px py :
  0 ≤ px < w → 0 ≤ py < h →
  colorTypeAt (render w h f) px py = classify (f px py).
Proof.
  intros Hx Hy. unfold colorTypeAt.
  replace (width (render w h f)) with w by done.
  rewrite <- (Z.add_0_r ((py * w + px) * 4)) at 1.
  by rewrite !get_render by lia.
Qed.

Lemma pixelsOfType_render t w h f :
  pixelsOfType t (render w h f) =
  filter (λ p, classify (f p.1 p.2) = t) (scanOrder w h).
Proof.
  unfold pixelsOfType. apply filter_ext_in.
  intros p [Hx Hy]%elem_of_scanOrder. by rewrite colorTypeAt_render.
Qed.

(** ** The detector on the fixtures *)

(** Evaluates a call of the detector on a rendered tile. *)
Lemma markerReadable_render w h f px py :
  0 ≤ px < w → 0 ≤ py < h → markerReadable (render w h f) px py = true.
Proof.
  intros Hx Hy. unfold markerReadable.
  replace (width (render w h f)) with w by done.
  rewrite <- (Z.add_0_r ((py * w + px) * 4)) at 1.
  by rewrite !get_render by lia.
Qed.

Ltac run_detector :=
  unfold detectBuildingsByColor, detectFrom, failureCause, clustersOf;
  rewrite ?pixelsOfType_render, ?markerReadable_render by lia;
  cbn [width height render];
  vm_compute; reflexivity.

Example clustersOf_speckAndRowTile :
  clustersOf speckAndRowTile 80 138 =
  [ [(72, 130)]; [(78, 138); (79, 138); (80, 138); (81, 138); (82, 138)] ].
Proof. unfold speckAndRowTile. run_detector. Qed.

Example detect_blockTile :
  detectBuildingsByColor keep keep (Decoded blockTile) tokyoTileX tokyoTileY 80 138
  = Some blockResult.
Proof. unfold blockTile. run_detector. Qed.

(** C1, at a failing input. On [speckAndRowTile] the clusters are the lone
    pixel (72, 130) and the row of five at (78..82, 138). Only the row
    survives the size test; the one feature returned for it, whose ring is
    the row's box, is tagged with [pixelCount] 1, the size of the lone
    pixel's cluster, while the cluster it was converted from has 5 pixels. *)
Theorem detect_pixelCount_of_skipped_cluster :
  clustersOf speckAndRowTile 80 138 =
    [ [(72, 130)]; [(78, 138); (79, 138); (80, 138); (81, 138); (82, 138)] ] ∧
  detectBuildingsByColor keep keep (Decoded speckAndRowTile)
    tokyoTileX tokyoTileY 80 138 = Some speckAndRowResult ∧
  pixelCount <$> features speckAndRowResult = [1] ∧
  (λ c, Z.of_nat (length c)) <$>
    filter (λ c, survives c = true) (clustersOf speckAndRowTile 80 138) = [5].
Proof. unfold speckAndRowTile. split_and!; [run_detector|run_detector|done|run_detector]. Qed.

(** ** The failure results *)

(** C3, as the code refutes it: a failed request, an undecodable image, a
    marker pixel outside the decoded image and a tile without building
    pixels near the marker are four different causes, and the detector
    returns the same [null] for all four. *)
Lemma detect_failures_collapse :
  failureCause FetchFailed 80 138 = Some FetchFailure ∧
  failureCause DecodeFailed 80 138 = Some DecodeFailure ∧
  failureCause (Decoded smallTile) 80 138 = Some OutOfBounds ∧
  failureCause (Decoded whiteTile) 80 138 = Some NoCandidates ∧
  detectBuildingsByColor keep keep FetchFailed tokyoTileX tokyoTileY 80 138 = None ∧
  detectBuildingsByColor keep keep DecodeFailed tokyoTileX tokyoTileY 80 138 = None ∧
  detectBuildingsByColor keep keep (Decoded smallTile) tokyoTileX tokyoTileY 80 138
    = None ∧
  detectBuildingsByColor keep keep (Decoded whiteTile) tokyoTileX tokyoTileY 80 138
    = None.
Proof. unfold smallTile, whiteTile. split_and!; run_detector. Qed.

Example detect_speckTile :
  failureCause (Decoded speckTile) 80 138 = Some NoCluster ∧
  detectBuildingsByColor keep keep (Decoded speckTile) tokyoTileX tokyoTileY 80 138
  = Some {| features := [] |}.
Proof. unfold speckTile. split; run_detector. Qed.

Lemma outside_bool_decide px py w h :
  (px <? 0) || (px >=? w) || (py <? 0) || (py >=? h)
  = negb (bool_decide (0 ≤ px < w ∧ 0 ≤ py < h)).
Proof.
  destruct (Z.ltb_spec px 0), (Z.geb_spec px w), (Z.ltb_spec py 0),
    (Z.geb_spec py h); simpl;
    (rewrite bool_decide_eq_false_2 by lia) || (rewrite bool_decide_eq_true_2 by lia);
    done.
Qed.

Lemma length_zero_bool_decide {A} `{EqDecision A} (l : list A) :
  (Z.of_nat (length l) =? 0) = bool_decide (l = []).
Proof. by destruct l. Qed.

Lemma survives_spec c : survives c = true ↔ (5 ≤ length c)%nat.
Proof. unfold survives. rewrite negb_true_iff, Z.ltb_ge. lia. Qed.

Lemma filter_survives_nil clusters :
  Forall (λ c, Z.of_nat (length c) < 5) clusters →
  filter (λ c, survives c = true) clusters = [].
Proof.
  induction 1 as [|c clusters Hc _ IH]; [done|].
  rewrite filter_cons, IH. destruct (decide (survives c = true)) as [Hs|]; [|done].
  apply survives_spec in Hs. lia.
Qed.

Lemma filter_survives_cons clusters :
  ¬ Forall (λ c, Z.of_nat (length c) < 5) clusters →
  filter (λ c, survives c = true) clusters ≠ [].
Proof.
  intros Hsome Hnil. apply Hsome, Forall_forall. intros c Hc.
  destruct (decide (survives c = true)) as [Hs|Hs].
  - by destruct (filter_nil_not_elem_of _ _ c Hnil Hs).
  - unfold survives in Hs. apply not_true_is_false, negb_false_iff in Hs. lia.
Qed.

Section WithProjection.
Context {Deg : Type} (pixelLon pixelLat : Z → Num → Deg).

Abbreviation detect := (detectBuildingsByColor pixelLon pixelLat).

(** C3, amended. The detector returns the same [null] for a failed request,
    an undecodable image, a marker pixel outside the image and a tile without
    building pixels near the marker; only the case where no cluster reaches
    five pixels differs, as a collection without features; and a call that
    runs into none of the five returns a collection with features. *)
Theorem detect_failure_results tile tileX tileY pixelX pixelY :
  match failureCause tile pixelX pixelY with
  | Some NoCluster => detect tile tileX tileY pixelX pixelY = Some {| features := [] |}
  | Some _ => detect tile tileX tileY pixelX pixelY = None
  | None => ∃ result, detect tile tileX tileY pixelX pixelY = Some result ∧
                      features result ≠ []
  end.
Proof.
  destruct tile as [| |imageData]; [done|done|].
  unfold failureCause, detectBuildingsByColor, detectFrom.
  rewrite outside_bool_decide, length_zero_bool_decide.
  fold (clustersOf imageData pixelX pixelY).
  case_bool_decide as Hin; simpl; [|done].
  destruct (markerReadable imageData pixelX pixelY); simpl; [|done].
  case_bool_decide as Hnear; simpl; [done|].
  unfold polygonsOf, featuresOf. case_bool_decide as Hsmall.
  - by rewrite filter_survives_nil.
  - eexists. split; [done|]. simpl.
    apply filter_survives_cons in Hsmall.
    by destruct (filter _ (clustersOf _ _ _)).
Qed.

(** C9. Whenever the detector returns a collection, its polygons are, in
    order, those of the clusters of at least five pixels: every feature's
    ring is the ring of such a cluster, and no cluster under five pixels
    contributes one. *)
Theorem detect_minimum_cluster_size tile tileX tileY pixelX pixelY result :
  detect tile tileX tileY pixelX pixelY = Some result →
  ∃ imageData,
    tile = Decoded imageData ∧
    coordinates <$> features result =
      (λ c, [polygonOf pixelLon pixelLat tileX tileY c]) <$>
        filter (λ c, (5 ≤ length c)%nat) (clustersOf imageData pixelX pixelY) ∧
    ∀ f, f ∈ features result →
         ∃ c, c ∈ clustersOf imageData pixelX pixelY ∧ (5 ≤ length c)%nat ∧
              coordinates f = [polygonOf pixelLon pixelLat tileX tileY c].
Proof.
  destruct tile as [| |imageData]; [done|done|]. intros Hdetect.
  exists imageData. split; [done|].
  unfold detectBuildingsByColor, detectFrom in Hdetect.
  fold (clustersOf imageData pixelX pixelY) in Hdetect.
  destruct (_ || _); [done|]. destruct (negb _); [done|].
  destruct (_ =? 0); [done|].
  injection Hdetect as <-. simpl.
  assert (coordinates <$>
            featuresOf (clustersOf imageData pixelX pixelY)
              (polygonsOf pixelLon pixelLat tileX tileY
                 (clustersOf imageData pixelX pixelY)) =
          (λ c, [polygonOf pixelLon pixelLat tileX tileY c]) <$>
            filter (λ c, (5 ≤ length c)%nat) (clustersOf imageData pixelX pixelY))
    as Hrings.
  { unfold featuresOf, polygonsOf. rewrite fmap_imap.
    rewrite (imap_ext _ (const (λ r, [r]))) by done.
    rewrite imap_const, <- list_fmap_compose.
    by rewrite (list_filter_iff _ (λ c, (5 ≤ length c)%nat)) by apply survives_spec. }
  split; [done|]. intros f Hf.
  assert (coordinates f ∈ coordinates <$>
            featuresOf (clustersOf imageData pixelX pixelY)
              (polygonsOf pixelLon pixelLat tileX tileY
                 (clustersOf imageData pixelX pixelY))) as Hring
    by (by apply list_elem_of_fmap_2).
  rewrite Hrings in Hring.
  apply list_elem_of_fmap in Hring as (c & Hc & [Hin Hsize]%list_elem_of_filter).
  by exists c.
Qed.
End WithProjection.

Lemma detect_minimum_cluster_size_witness :
  ∃ imageData,
    Decoded blockTile = Decoded imageData ∧
    coordinates <$> features blockResult =
      (λ c, [polygonOf keep keep tokyoTileX tokyoTileY c]) <$>
        filter (λ c, (5 ≤ length c)%nat) (clustersOf imageData 80 138) ∧
    ∀ f, f ∈ features blockResult →
         ∃ c, c ∈ clustersOf imageData 80 138 ∧ (5 ≤ length c)%nat ∧
              coordinates f = [polygonOf keep keep tokyoTileX tokyoTileY c].
Proof.
  apply (detect_minimum_cluster_size keep keep (Decoded blockTile)
           tokyoTileX tokyoTileY 80 138 blockResult).
  unfold blockTile. run_detector.
Defined.

End DetectorProofs.

(* ===================================================================== *)
(** * Further properties of the pixel clustering                          *)
(* ===================================================================== *)

Module ClusteringFacts.
Import Clustering ClusteringProofs.


Lemma near_nonpositive maxDistance p q :
  maxDistance ≤ 0 → near maxDistance p q = true → p = q.
Proof.
  unfold near. intros Hd [H0 Hle]%andb_true_iff.
  apply Z.leb_le in H0, Hle. assert (maxDistance = 0) as -> by lia.
  destruct p as [px py], q as [qx qy]. simpl in Hle.
  f_equal; nia.
Qed.

Section Components.
Variables (pixels : list Pixel) (maxDistance : Z).

(** ** Every cluster is linked *)

Lemma linked_snoc cluster current :
  linked maxDistance cluster →
  (cluster = [] ∨ ∃ c, c ∈ cluster ∧ near maxDistance c current = true) →
  linked maxDistance (cluster ++ [current]).
Proof.
  intros Hlinked Hnear k p Hp.
  destruct (decide (S k < length cluster)%nat) as [Hlt|Hge].
  - rewrite lookup_app_l in Hp by done.
    destruct (Hlinked k p Hp) as (j & q & Hj & Hq & Hqp).
    exists j, q. split_and!; [done| |done]. rewrite lookup_app_l; [done|].
    apply lookup_lt_Some in Hq. lia.
  - assert (S k = length cluster) as Hk.
    { apply lookup_lt_Some in Hp. rewrite length_app in Hp. simpl in Hp. lia. }
    rewrite Hk, list_lookup_middle in Hp by done. injection Hp as <-.
    destruct Hnear as [->|(c & [j Hj]%list_elem_of_lookup & Hc)]; [done|].
    exists j, c. split_and!; [|by apply lookup_app_l_Some|done].
    apply lookup_lt_Some in Hj. lia.
Qed.

Lemma grow_linked fuel visited cluster queue visited' cluster' :
  linked maxDistance cluster →
  (∀ q, q ∈ queue → ∃ c, c ∈ cluster ∧ near maxDistance c q = true) →
  grow fuel pixels maxDistance visited cluster queue = Some (visited', cluster') →
  linked maxDistance cluster'.
Proof.
  revert visited cluster queue.
  induction fuel as [|fuel IH]; intros visited cluster queue Hlinked Hqueue Hgrow.
  { destruct queue; [|done]. rewrite grow_nil in Hgrow. by injection Hgrow as <- <-. }
  destruct queue as [|current queue].
  { rewrite grow_nil in Hgrow. by injection Hgrow as <- <-. }
  simpl in Hgrow. destruct (decide (key current ∈ visited)).
  - eapply IH; [done| |done]. intros q Hq. apply Hqueue. by right.
  - eapply IH; [| |done].
    + apply linked_snoc; [done|]. right. apply Hqueue. left.
    + intros q [Hq|Hq]%elem_of_app.
      * destruct (Hqueue q) as (c & Hc & Hcq); [by right|].
        exists c. split; [|done]. apply elem_of_app. by left.
      * exists current. split; [apply elem_of_app; right; left|].
        unfold neighbors in Hq. apply list_elem_of_filter in Hq. tauto.
Qed.

Lemma grow_start_linked fuel visited pixel visited' cluster' :
  grow fuel pixels maxDistance visited [] [pixel] = Some (visited', cluster') →
  linked maxDistance cluster'.
Proof.
  destruct fuel as [|fuel]; [done|]. simpl.
  destruct (decide (key pixel ∈ visited)).
  - rewrite grow_nil. intros [= <- <-]. by intros k p.
  - apply grow_linked.
    + by intros k p.
    + intros q Hq. exists pixel. split; [left|].
      unfold neighbors in Hq. apply list_elem_of_filter in Hq. tauto.
Qed.

Lemma sweep_linked fuel rest visited clusters res :
  Forall (linked maxDistance) clusters →
  sweep fuel pixels maxDistance rest visited clusters = Some res →
  Forall (linked maxDistance) res.
Proof.
  revert visited clusters.
  induction rest as [|pixel rest IH]; intros visited clusters Hall Hsweep.
  { simpl in Hsweep. by injection Hsweep as <-. }
  simpl in Hsweep. destruct (decide (key pixel ∈ visited)); [by eapply IH|].
  destruct (grow fuel pixels maxDistance visited [] [pixel]) as [[v c]|] eqn:Hgrow;
    [|done].
  apply grow_start_linked in Hgrow.
  eapply IH; [|done]. destruct (0 <? Z.of_nat (length c)); [|done].
  apply Forall_app. split; [done|]. by constructor.
Qed.

(** ** The visited set is closed when a run ends *)


End Components.

(** ** What holds of the clusters returned *)

Lemma clusterPixels_consistent pixels maxDistance :
  consistent pixels (keys (concat (clusterPixels pixels maxDistance)))
    (clusterPixels pixels maxDistance).
Proof.
  pose proof (clusterPixelsWith_enough (budget pixels) pixels maxDistance
                (Nat.le_refl _)) as Hrun.
  unfold clusterPixelsWith in Hrun.
  apply sweep_spec in Hrun as (Hcons & _); [done|done|].
  split_and!; [done|constructor|by intros p ?%elem_of_nil|constructor].
Qed.

Lemma clusterPixels_linked pixels maxDistance :
  Forall (linked maxDistance) (clusterPixels pixels maxDistance).
Proof.
  pose proof (clusterPixelsWith_enough (budget pixels) pixels maxDistance
                (Nat.le_refl _)) as Hrun.
  unfold clusterPixelsWith in Hrun. eapply sweep_linked; [|done]. constructor.
Qed.

Lemma clusterPixels_elem pixels maxDistance c p :
  c ∈ clusterPixels pixels maxDistance → p ∈ c → p ∈ pixels.
Proof.
  intros Hc Hp. destruct (clusterPixels_consistent pixels maxDistance)
    as (_ & _ & Hin & _).
  apply Hin, elem_of_concat. by exists c.
Qed.

Lemma clusterPixels_NoDup pixels maxDistance c :
  c ∈ clusterPixels pixels maxDistance → NoDup c.
Proof.
  intros Hc. destruct (clusterPixels_consistent pixels maxDistance)
    as (_ & Hnd%NoDup_fmap_1 & _ & _).
  revert Hc Hnd. generalize (clusterPixels pixels maxDistance) as cs.
  induction cs as [|c0 cs IH]; intros Hc Hnd; [by apply elem_of_nil in Hc|].
  simpl in Hnd. apply NoDup_app in Hnd as (Hnd0 & _ & Hnd1).
  apply elem_of_cons in Hc as [->|Hc]; [done|by apply IH].
Qed.




(** With a [maxDistance] of zero or less every cluster is a single pixel. *)
Theorem clusterPixels_singletons pixels maxDistance c :
  maxDistance ≤ 0 → c ∈ clusterPixels pixels maxDistance → length c = 1%nat.
Proof.
  intros Hd Hc.
  pose proof (clusterPixels_NoDup _ _ _ Hc) as Hnd.
  pose proof (clusterPixels_linked pixels maxDistance) as Hall.
  rewrite Forall_forall in Hall. specialize (Hall c Hc).
  destruct (clusterPixels_consistent pixels maxDistance) as (_ & _ & _ & Hne).
  rewrite Forall_forall in Hne. specialize (Hne c Hc).
  destruct c as [|p0 [|p1 c]]; [done|done|].
  destruct (Hall 0%nat p1 eq_refl) as (j & q & Hj & Hq & Hnear).
  assert (j = 0%nat) as -> by lia. injection Hq as <-.
  apply near_nonpositive in Hnear as ->; [|done].
  apply NoDup_cons in Hnd as [Hnd _]. destruct Hnd. left.
Qed.

Lemma clusterPixels_cover pixels maxDistance p :
  p ∈ pixels ↔ ∃ c, c ∈ clusterPixels pixels maxDistance ∧ p ∈ c.
Proof.
  pose proof (clusterPixelsWith_enough (budget pixels) pixels maxDistance
                (Nat.le_refl _)) as Hrun.
  unfold clusterPixelsWith in Hrun.
  apply sweep_spec in Hrun as ((_ & _ & Hin & _) & _ & Hall); [|done|].
  2:{ split_and!; [done|constructor|by intros q ?%elem_of_nil|constructor]. }
  rewrite <- elem_of_concat. split; [|apply Hin].
  intros Hp. by apply elem_of_keys, Hall.
Qed.

(** ** The theorems at a concrete input *)



Lemma clusterPixels_singletons_witness : length [(1, 0)] = 1%nat.
Proof.
  apply (clusterPixels_singletons [(0, 0); (1, 0); (0, 1)] 0 [(1, 0)]).
  - lia.
  - vm_compute. right. left.
Defined.

End ClusteringFacts.

(* ===================================================================== *)
(** * Further properties of the flood fill                                *)
(* ===================================================================== *)

Module FloodFillFacts.
Import Raster RasterProofs FloodFill FloodFillProofs.

(** ** One paint, all four channels *)

Lemma sample_paint_full d index fill :
  validColor fill →
  is_Some (get d index) → is_Some (get d (index + 3)) →
  sample (paint d index fill) index = fillSample fill.
Proof.
  intros (Hr & Hg & Hb & Ha) [H0 _]%get_is_Some [_ H3]%get_is_Some.
  unfold sample, paint, fillSample. f_equal.
  - rewrite !(get_set_ne _ _ index) by lia.
    rewrite get_set_eq by (apply get_is_Some; lia). by rewrite clamp_byte.
  - rewrite !(get_set_ne _ _ (index + 1)) by lia.
    rewrite get_set_eq by (rewrite get_is_Some, ?length_set; lia).
    by rewrite clamp_byte.
  - rewrite !(get_set_ne _ _ (index + 2)) by lia.
    rewrite get_set_eq by (rewrite get_is_Some, ?length_set; lia).
    by rewrite clamp_byte.
  - rewrite get_set_eq by (rewrite get_is_Some, ?length_set; lia).
    by rewrite clamp_byte.
Qed.

Lemma length_paint d index fill : length (paint d index fill) = length d.
Proof. unfold paint. by rewrite !length_set. Qed.

Lemma inside_offset_defined w h d p :
  0 ≤ w → Z.of_nat (length d) = 4 * (w * h) → inside w h p →
  is_Some (get d (offset w p)) ∧ is_Some (get d (offset w p + 3)).
Proof.
  intros Hw Hlen [Hx Hy]. unfold offset. rewrite !get_is_Some. nia.
Qed.

Section LoopSound.
Variables (w h : Z) (startColor : Sampled) (fillColor : Color) (tolerance : Z).
Hypothesis Hfill : validColor fillColor.

Abbreviation loop fuel := (fillLoop fuel w h startColor fillColor tolerance).
Abbreviation offset := (FloodFill.offset w).
Abbreviation discarded := (FloodFill.discarded w h startColor fillColor tolerance).

(** A pixel of a well-formed buffer is either what it was or was within the
    tolerance of the seed colour and now reads as the fill colour. *)
Lemma fillLoop_sound fuel d stack n d' n' :
  0 ≤ w → Z.of_nat (length d) = 4 * (w * h) →
  loop fuel d stack n = Some (d', n') →
  length d' = length d ∧
  ∀ p, inside w h p →
       sample d' (offset p) = sample d (offset p) ∨
       (isSimilarColor (sample d (offset p)) startColor tolerance = true ∧
        sample d' (offset p) = fillSample fillColor).
Proof.
  intros Hw Hlen.
  apply (fillLoop_invariant w h startColor fillColor tolerance
    (λ d1 _, length d1 = length d ∧
             ∀ p, inside w h p →
                  sample d1 (offset p) = sample d (offset p) ∨
                  (isSimilarColor (sample d (offset p)) startColor tolerance = true ∧
                   sample d1 (offset p) = fillSample fillColor))).
  - intros d1 _ t [Hlen1 HI] (Hin & Hsim & Hne)%discarded_false.
    split; [by rewrite length_paint|]. intros p Hp.
    destruct (decide (offset p = offset t)) as [Heq|Hother].
    + right. rewrite Heq. split.
      * destruct (HI t Hin) as [<-|[_ Hfilled]]; [done|].
        rewrite Hfilled in Hne. unfold sameRGB, fillSample in Hne. simpl in Hne.
        by rewrite !Z.eqb_refl in Hne.
      * apply sample_paint_full; [done|..];
          eapply (inside_offset_defined w h); (done || congruence).
    + rewrite sample_paint_ne; [by apply HI|]. unfold FloodFill.offset in *. lia.
  - split; [done|]. intros p _. by left.
Qed.
End LoopSound.

(** ** The whole call *)

(** A fill leaves the buffer's size alone, and every pixel inside it is
    either what it was, or was within the tolerance of the seed pixel's
    colour and now has the fill colour on all four channels. *)
Theorem floodFill_paints_similar img sx sy target fill tol img' n px py :
  validColor fill → wellFormed img →
  floodFill img sx sy target fill tol = Some (img', n) →
  inBounds img px py →
  wellFormed img' ∧ width img' = width img ∧ height img' = height img ∧
  (pixelAt img' px py = pixelAt img px py ∨
   (isSimilarColor (pixelAt img px py) (pixelAt img sx sy) tol = true ∧
    pixelAt img' px py = fillSample fill)).
Proof.
  intros Hfill (Hw & Hh & Hlen) Hres Hin. unfold floodFill in Hres.
  destruct (floodFillWith_cases (budget img) img sx sy target fill tol Hfill)
    as [[_ Hcall]|[_ (d' & n' & Hloop & Hcall)]]; [done|..];
    rewrite Hcall in Hres; injection Hres as <- <-.
  { split_and!; try done. by left. }
  destruct (fillLoop_sound _ _ _ _ _ Hfill _ _ _ _ _ _ Hw Hlen Hloop) as [Hlen' Hall].
  split_and!; try done.
  - unfold wellFormed. simpl. by rewrite Hlen'.
  - apply (Hall (mkPoint px py)). done.
Qed.

Lemma floodFill_paints_similar_witness :
  wellFormed red4x4 ∧ width red4x4 = width white4x4 ∧
  height red4x4 = height white4x4 ∧
  (pixelAt red4x4 2 3 = pixelAt white4x4 2 3 ∨
   (isSimilarColor (pixelAt white4x4 2 3) (pixelAt white4x4 0 0) 10 = true ∧
    pixelAt red4x4 2 3 = fillSample red)).
Proof.
  apply (floodFill_paints_similar white4x4 0 0 black0 red 10 red4x4 16 2 3).
  - unfold validColor, red; simpl; lia.
  - vm_compute. repeat split; discriminate.
  - vm_compute. reflexivity.
  - unfold inBounds, white4x4; simpl; lia.
Defined.

(** With a negative tolerance nothing is similar to the seed colour: the
    call returns 0 and the buffer is as it was. *)
Theorem floodFill_negative_tolerance img sx sy target fill tol :
  tol < 0 → floodFill img sx sy target fill tol = Some (img, 0).
Proof.
  intros Hneg. unfold floodFill, floodFillWith, budget.
  destruct (sameRGB _ fill); [done|].
  rewrite fillLoop_step.
  assert (∀ c1 c2, isSimilarColor c1 c2 tol = false) as Hnone.
  { intros c1 c2. unfold isSimilarColor.
    destruct (s_r c1), (s_g c1), (s_b c1), (s_r c2), (s_g c2), (s_b c2); try done.
    destruct (Z.leb_spec 0 tol); [lia|done]. }
  unfold discarded. rewrite Hnone. simpl. rewrite orb_true_r. simpl.
  by rewrite fillLoop_nil, imageData_eta.
Qed.

Lemma floodFill_negative_tolerance_witness :
  floodFill white4x4 0 0 black0 red (-1) = Some (white4x4, 0).
Proof. apply (floodFill_negative_tolerance white4x4 0 0 black0 red (-1)). lia. Defined.

Lemma offset_inj w h p q :
  inside w h p → inside w h q → offset w p = offset w q → p = q.
Proof.
  intros [Hpx _] [Hqx _]. unfold offset. intros Heq.
  destruct p as [px py], q as [qx qy]; simpl in *.
  assert (py = qy) as -> by nia. f_equal. lia.
Qed.

(** ** Counting the pixels that change *)

Lemma filter_length_S {A} (P Q : A → Prop) `{!∀ x, Decision (P x)}
    `{!∀ x, Decision (Q x)} (l : list A) a :
  NoDup l → a ∈ l → P a → ¬ Q a → (∀ x, x ≠ a → Q x ↔ P x) →
  length (filter P l) = S (length (filter Q l)).
Proof.
  intros Hnd Hin HP HQ Hext. induction l as [|x l IH]; [by apply elem_of_nil in Hin|].
  apply NoDup_cons in Hnd as [Hx Hnd]. rewrite !filter_cons.
  apply elem_of_cons in Hin as [<-|Hin].
  - rewrite (decide_True _ _ HP), (decide_False _ _ HQ). simpl. f_equal.
    f_equal. apply DetectorProofs.filter_ext_in. intros z Hz.
    symmetry. apply Hext. intros ->. done.
  - assert (x ≠ a) as Hne by (intros ->; done).
    specialize (Hext x Hne). specialize (IH Hnd Hin).
    destruct (decide (P x)), (decide (Q x)); simpl; rewrite ?IH; tauto || done.
Qed.

Lemma filter_length_split {A} (P0 P1 C : A → Prop) `{!∀ x, Decision (P0 x)}
    `{!∀ x, Decision (P1 x)} `{!∀ x, Decision (C x)} (l : list A) :
  (∀ x, x ∈ l → ((P0 x ↔ P1 x) ∧ ¬ C x) ∨ (P0 x ∧ ¬ P1 x ∧ C x)) →
  length (filter P0 l) = (length (filter P1 l) + length (filter C l))%nat.
Proof.
  induction l as [|x l IH]; intros Hall; [done|].
  assert (length (filter P0 l) = (length (filter P1 l) + length (filter C l))%nat)
    as IH' by (apply IH; intros z Hz; apply Hall; by right).
  rewrite !filter_cons.
  destruct (Hall x) as [[Hiff HC]|(Hx0 & Hx1 & HC)]; [left|..];
    destruct (decide (P0 x)), (decide (P1 x)), (decide (C x)); simpl; tauto || lia.
Qed.

Section LoopShape.
Variables (w h : Z) (startColor : Sampled) (fillColor : Color) (tolerance : Z).
Hypothesis Hfill : validColor fillColor.

Abbreviation loop fuel := (fillLoop fuel w h startColor fillColor tolerance).
Abbreviation offset := (FloodFill.offset w).
Abbreviation discarded := (FloodFill.discarded w h startColor fillColor tolerance).

Lemma paint_unfilled_S d p :
  discarded d p = false →
  length (unfilled w h fillColor d) =
  S (length (unfilled w h fillColor (paint d (offset p) fillColor))).
Proof.
  intros (Hin & Hsim & Hne)%discarded_false.
  apply isSimilarColor_defined in Hsim as (Sr & Sg & Sb & _).
  pose proof (sameRGB_paint d (offset p) fillColor Hfill Sr Sg Sb) as Hpainted.
  unfold unfilled. apply filter_length_S with (a := y p * w + x p).
  - apply NoDup_seqZ.
  - apply elem_of_seqZ. nia.
  - done.
  - unfold FloodFill.offset in *. congruence.
  - intros k Hk. rewrite sample_paint_ne; [done|]. unfold FloodFill.offset. lia.
Qed.

Lemma fillLoop_count_exact fuel d stack n d' n' :
  loop fuel d stack n = Some (d', n') →
  n' + Z.of_nat (length (unfilled w h fillColor d'))
  = n + Z.of_nat (length (unfilled w h fillColor d)).
Proof.
  apply (fillLoop_invariant w h startColor fillColor tolerance
    (λ d1 n1, n1 + Z.of_nat (length (unfilled w h fillColor d1))
              = n + Z.of_nat (length (unfilled w h fillColor d)))).
  - intros d1 n1 p Hn Hd. pose proof (paint_unfilled_S d1 p Hd). lia.
  - done.
Qed.

(** ** Invariants that mention the stack *)

Lemma fillLoop_invariant_stack (I : list Z → list Point → Prop) :
  (∀ d p stack, I d (p :: stack) → discarded d p = true → I d stack) →
  (∀ d p stack, I d (p :: stack) → discarded d p = false →
                I (paint d (offset p) fillColor) (pushed p stack)) →
  ∀ fuel d stack n d' n',
    I d stack → loop fuel d stack n = Some (d', n') → I d' [].
Proof.
  intros Hskip Hpaint. induction fuel as [|fuel IH]; intros d stack n d' n' HI.
  - destruct stack; [|done]. rewrite fillLoop_nil. by intros [= <- <-].
  - destruct stack as [|p stack]; [rewrite fillLoop_nil; by intros [= <- <-]|].
    rewrite fillLoop_step. destruct (discarded d p) eqn:Hd.
    + apply IH. by eapply Hskip.
    + apply IH. by apply Hpaint.
Qed.

Lemma pushed_adjacent p stack : pushed p stack = adjacent p ++ stack.
Proof. done. Qed.

Lemma discarded_paint d t q :
  discarded d t = false → discarded d q = true →
  discarded (paint d (offset t) fillColor) q = true.
Proof.
  intros Ht Hq. pose proof Ht as (Hin & Hsim & Hne)%discarded_false.
  apply isSimilarColor_defined in Hsim as (Sr & Sg & Sb & _).
  pose proof (sameRGB_paint d (offset t) fillColor Hfill Sr Sg Sb) as Hpainted.
  unfold FloodFill.discarded in *.
  destruct (decide (offset q = offset t)) as [->|Hother].
  - rewrite Hpainted. by rewrite orb_true_r.
  - rewrite sample_paint_ne; [done|]. unfold FloodFill.offset in *. lia.
Qed.

Lemma tookFill_paint d0 d t index :
  discarded d t = false → tookFill fillColor d0 d index →
  (∃ k, index = k * 4) →
  tookFill fillColor d0 (paint d (offset t) fillColor) index.
Proof.
  intros (Hin & Hsim & Hne)%discarded_false [H0 H1] [k ->]. split; [done|].
  apply isSimilarColor_defined in Hsim as (Sr & Sg & Sb & _).
  pose proof (sameRGB_paint d (offset t) fillColor Hfill Sr Sg Sb) as Hpainted.
  destruct (decide (k * 4 = offset t)) as [->|Hother]; [done|].
  rewrite sample_paint_ne; [done|]. unfold FloodFill.offset in *. lia.
Qed.

(** The fill is closed: around a pixel that took the fill colour, every
    point is still on the stack or would be discarded. *)
Lemma fillLoop_closed (d0 : list Z) fuel d stack n d' n' :
  (∀ p q, inside w h p → tookFill fillColor d0 d (offset p) → q ∈ adjacent p →
          q ∈ stack ∨ discarded d q = true) →
  loop fuel d stack n = Some (d', n') →
  ∀ p q, inside w h p → tookFill fillColor d0 d' (offset p) → q ∈ adjacent p →
         discarded d' q = true.
Proof.
  intros Hstart Hloop p q Hp Htook Hq.
  assert (q ∈ @nil Point ∨ discarded d' q = true) as [?%elem_of_nil|?]; [|done..].
  revert p q Hp Htook Hq.
  apply (fillLoop_invariant_stack
    (λ d1 stack1, ∀ p q, inside w h p → tookFill fillColor d0 d1 (offset p) →
                         q ∈ adjacent p → q ∈ stack1 ∨ discarded d1 q = true))
    with (4 := Hloop); [| |done].
  - intros d1 t stack1 HI Ht p q Hp Htook Hq.
    destruct (HI p q Hp Htook Hq) as [Hin|?]; [|by right].
    apply elem_of_cons in Hin as [->|?]; [by right|by left].
  - intros d1 t stack1 HI Ht p q Hp [H0 H1] Hq.
    pose proof Ht as (Hin & Hsim & Hne)%discarded_false.
    rewrite pushed_adjacent.
    destruct (decide (offset p = offset t)) as [Heq|Hother].
    + left. apply elem_of_app. left.
      assert (p = t) as <-; [|done].
      by apply (offset_inj w h).
    + rewrite sample_paint_ne in H1 by (unfold FloodFill.offset in *; lia).
      destruct (HI p q Hp (conj H0 H1) Hq) as [Hqin|Hqd].
      * apply elem_of_cons in Hqin as [->|?].
        -- right. apply isSimilarColor_defined in Hsim as (Sr & Sg & Sb & _).
           unfold FloodFill.discarded.
           rewrite (sameRGB_paint d1 (offset t) fillColor Hfill Sr Sg Sb).
           by rewrite orb_true_r.
        -- left. apply elem_of_app. by right.
      * right. by apply discarded_paint.
Qed.

(** Every pixel that took the fill colour is reached from the seed. *)
Lemma fillLoop_routes (d0 : list Z) (seed : Point) fuel d stack n d' n' :
  (∀ p, inside w h p → tookFill fillColor d0 d (offset p) →
        route w h fillColor d0 d seed p) →
  (∀ s, s ∈ stack → s = seed ∨
        ∃ p, route w h fillColor d0 d seed p ∧ s ∈ adjacent p) →
  (∀ p, sameRGB (sample d (offset p)) fillColor = false →
        sample d (offset p) = sample d0 (offset p)) →
  loop fuel d stack n = Some (d', n') →
  ∀ p, inside w h p → tookFill fillColor d0 d' (offset p) →
       route w h fillColor d0 d' seed p.
Proof.
  intros Hpainted Hstack Hsame Hloop.
  apply (fillLoop_invariant_stack
    (λ d1 stack1,
       (∀ p, inside w h p → tookFill fillColor d0 d1 (offset p) →
             route w h fillColor d0 d1 seed p) ∧
       (∀ s, s ∈ stack1 → s = seed ∨
             ∃ p, route w h fillColor d0 d1 seed p ∧ s ∈ adjacent p) ∧
       (∀ p, sameRGB (sample d1 (offset p)) fillColor = false →
             sample d1 (offset p) = sample d0 (offset p))))
    with (4 := Hloop); [| |done].
  - intros d1 t stack1 (H1 & H2 & H3) _. split_and!; [done| |done].
    intros s Hs. apply H2. by right.
  - intros d1 t stack1 (H1 & H2 & H3) Ht.
    pose proof Ht as (Hin & Hsim & Hne)%discarded_false.
    apply isSimilarColor_defined in Hsim as (Sr & Sg & Sb & _).
    pose proof (sameRGB_paint d1 (offset t) fillColor Hfill Sr Sg Sb) as Hnow.
    assert (∀ p, route w h fillColor d0 d1 seed p →
                 route w h fillColor d0 (paint d1 (offset t) fillColor) seed p)
      as Hmono.
    { induction 1 as [Hseed Htook|p q Hroute IH Hq Hqin Htook].
      - apply route_seed; [done|]. apply tookFill_paint; [done..|].
        by exists (y seed * w + x seed).
      - apply route_step with p; [done..|]. apply tookFill_paint; [done..|].
        by exists (y q * w + x q). }
    assert (tookFill fillColor d0 (paint d1 (offset t) fillColor) (offset t))
      as Htook.
    { split; [|done]. by rewrite <- (H3 t Hne). }
    assert (route w h fillColor d0 (paint d1 (offset t) fillColor) seed t)
      as Hroute.
    { destruct (H2 t) as [->|(p & Hp & Htp)]; [left| |].
      - by apply route_seed.
      - apply route_step with p; [by apply Hmono|done..]. }
    split_and!.
    + intros p Hp [Hp0 Hp1].
      destruct (decide (offset p = offset t)) as [Heq|Hother].
      * assert (p = t) as ->; [|done].
        by apply (offset_inj w h).
      * rewrite sample_paint_ne in Hp1 by (unfold FloodFill.offset in *; lia).
        apply Hmono, H1; done.
    + intros s Hs. rewrite pushed_adjacent in Hs.
      apply elem_of_app in Hs as [Hs|Hs].
      * right. by exists t.
      * destruct (H2 s) as [->|(p & Hp & Hsp)]; [by right|by left|].
        right. exists p. split; [by apply Hmono|done].
    + intros p Hp.
      destruct (decide (offset p = offset t)) as [Heq|Hother].
      * rewrite Heq in Hp. congruence.
      * rewrite sample_paint_ne in Hp |- * by (unfold FloodFill.offset in *; lia).
        by apply H3.
Qed.
End LoopShape.

(** ** The whole call, again *)

Lemma filter_all {A} (P : A → Prop) `{!∀ x, Decision (P x)} (l : list A) :
  (∀ x, x ∈ l → P x) → filter P l = l.
Proof.
  induction l as [|x l IH]; intros Hall; [done|].
  rewrite filter_cons_True by (apply Hall; left).
  f_equal. apply IH. intros z Hz. apply Hall. by right.
Qed.

Lemma filter_none {A} (P : A → Prop) `{!∀ x, Decision (P x)} (l : list A) :
  (∀ x, x ∈ l → ¬ P x) → filter P l = [].
Proof.
  induction l as [|x l IH]; intros Hall; [done|].
  rewrite filter_cons_False by (apply Hall; left).
  apply IH. intros z Hz. apply Hall. by right.
Qed.

(** Either the call returned at once, or it ran the loop from the seed. *)
Lemma floodFill_cases img sx sy target fill tol img' n :
  validColor fill →
  floodFill img sx sy target fill tol = Some (img', n) →
  (sameRGB (pixelAt img sx sy) fill = true ∧ img' = img ∧ n = 0) ∨
  (sameRGB (pixelAt img sx sy) fill = false ∧
   ∃ d', img' = mkImageData (width img) (height img) d' ∧
         fillLoop (budget img) (width img) (height img) (pixelAt img sx sy) fill tol
           (data img) [mkPoint sx sy] 0 = Some (d', n)).
Proof.
  intros Hfill Hres. unfold floodFill in Hres.
  destruct (floodFillWith_cases (budget img) img sx sy target fill tol Hfill)
    as [[Hseed Hcall]|[Hseed (d' & n' & Hloop & Hcall)]]; [done|..];
    rewrite Hcall in Hres; injection Hres as <- <-; [by left|right].
  split; [done|]. by exists d'.
Qed.

Lemma changed_tookFill fill d0 d' k :
  (sample d' (k * 4) = sample d0 (k * 4) ∨
   (sameRGB (sample d' (k * 4)) fill = true ∧
    sameRGB (sample d0 (k * 4)) fill = false)) →
  sample d' (k * 4) ≠ sample d0 (k * 4) ↔ tookFill fill d0 d' (k * 4).
Proof.
  intros [Hsame|[H1 H0]]; split.
  - done.
  - intros [H0 H1]. rewrite Hsame in H1. congruence.
  - done.
  - intros _ Heq. rewrite Heq in H1. congruence.
Qed.

(** The loop run from the seed: its count is the number of pixels it
    changed. *)
Lemma seedLoop_counts_changed img sx sy fill tol d' n :
  validColor fill →
  fillLoop (budget img) (width img) (height img) (pixelAt img sx sy) fill tol
    (data img) [mkPoint sx sy] 0 = Some (d', n) →
  n = Z.of_nat (length (changedPixels img (mkImageData (width img) (height img) d'))).
Proof.
  intros Hfill Hloop.
  pose proof (fillLoop_count_exact _ _ _ _ _ Hfill _ _ _ _ _ _ Hloop) as Hcount.
  pose proof (fillLoop_changes _ _ _ _ _ _ _ _ _ _ _ Hfill Hloop) as Hchanges.
  unfold changedPixels, unfilled in *. simpl.
  rewrite (filter_length_split
             (λ k, sameRGB (sample (data img) (k * 4)) fill = false)
             (λ k, sameRGB (sample d' (k * 4)) fill = false)
             (λ k, sample d' (k * 4) ≠ sample (data img) (k * 4))) in Hcount; [lia|].
  intros k _. destruct (Hchanges k) as [Hsame|[H1 H0]].
  - left. rewrite Hsame. split; [done|]. by intros [].
  - right. split_and!; [done|congruence|]. intros Heq. rewrite Heq in H1. congruence.
Qed.

(** The loop run from a seed inside the buffer that is similar to itself
    and does not have the fill colour: the seed pixel takes the fill colour. *)
Lemma seedLoop_paints_seed img sx sy fill tol d' n :
  validColor fill → inBounds img sx sy →
  isSimilarColor (pixelAt img sx sy) (pixelAt img sx sy) tol = true →
  sameRGB (pixelAt img sx sy) fill = false →
  fillLoop (budget img) (width img) (height img) (pixelAt img sx sy) fill tol
    (data img) [mkPoint sx sy] 0 = Some (d', n) →
  tookFill fill (data img) d' (offset (width img) (mkPoint sx sy)).
Proof.
  intros Hfill Hseed Hsim Hne Hloop.
  assert (discarded (width img) (height img) (pixelAt img sx sy) fill tol (data img)
            (mkPoint sx sy) = false) as Hd.
  { unfold discarded, inBounds, FloodFill.offset in *. simpl.
    change (sample (data img) ((sy * width img + sx) * 4)) with (pixelAt img sx sy).
    rewrite Hsim, Hne.
    destruct (Z.ltb_spec sx 0); [lia|].
    destruct (Z.geb_spec sx (width img)); [lia|].
    destruct (Z.ltb_spec sy 0); [lia|].
    destruct (Z.geb_spec sy (height img)); [lia|]. done. }
  split; [done|].
  unfold budget in Hloop. rewrite fillLoop_step, Hd in Hloop.
  apply isSimilarColor_defined in Hsim as (Sr & Sg & Sb & _).
  eapply (fillLoop_keeps_filled _ _ _ fill tol (mkPoint sx sy)); [|done].
  by apply sameRGB_paint.
Qed.

(** A pixel that took the fill colour was within the tolerance of the seed
    colour. *)
Lemma fillLoop_took_similar w h startColor fillColor tolerance fuel d stack n d' n' :
  validColor fillColor →
  fillLoop fuel w h startColor fillColor tolerance d stack n = Some (d', n') →
  ∀ k, tookFill fillColor d d' (k * 4) →
       isSimilarColor (sample d (k * 4)) startColor tolerance = true.
Proof.
  intros Hfill Hloop k [H0 H1].
  assert (sample d' (k * 4) = sample d (k * 4) ∨
          isSimilarColor (sample d (k * 4)) startColor tolerance = true)
    as [Hsame|?]; [|congruence|done].
  revert Hloop.
  apply (fillLoop_invariant w h startColor fillColor tolerance
    (λ d1 _, sample d1 (k * 4) = sample d (k * 4) ∨
             isSimilarColor (sample d (k * 4)) startColor tolerance = true));
    [|by left].
  intros d1 _ p [Hsame|?] (_ & Hsim & _)%discarded_false; [|by right].
  destruct (decide (k * 4 = FloodFill.offset w p)) as [Heq|Hother].
  - right. by rewrite <- Hsame, Heq.
  - left. rewrite sample_paint_ne; [done|]. unfold FloodFill.offset in *. lia.
Qed.

Lemma isSimilarColor_mono c1 c2 tol tol' :
  tol ≤ tol' → isSimilarColor c1 c2 tol = true → isSimilarColor c1 c2 tol' = true.
Proof.
  unfold isSimilarColor. intros Hle.
  destruct (s_r c1), (s_g c1), (s_b c1), (s_r c2), (s_g c2), (s_b c2); try done.
  intros [H0%Z.leb_le H1%Z.leb_le]%andb_true_iff.
  apply andb_true_iff. split; apply Z.leb_le; nia.
Qed.

Lemma filter_length_le_in {A} (P Q : A → Prop) `{!∀ x, Decision (P x)}
    `{!∀ x, Decision (Q x)} (l : list A) :
  (∀ x, x ∈ l → Q x → P x) → (length (filter Q l) ≤ length (filter P l))%nat.
Proof.
  induction l as [|x l IH]; intros HQP; [done|].
  assert (length (filter Q l) ≤ length (filter P l))%nat as IH'
    by (apply IH; intros z Hz; apply HQP; by right).
  rewrite !filter_cons. destruct (decide (Q x)) as [HQ|HQ].
  - rewrite decide_True by (apply HQP; [left|done]). simpl. lia.
  - destruct (decide (P x)); simpl; lia.
Qed.

Lemma inside_pixel_number w h k :
  0 ≤ k < w * h → 0 < w →
  inside w h (mkPoint (k `mod` w) (k `div` w)) ∧
  offset w (mkPoint (k `mod` w) (k `div` w)) = k * 4.
Proof.
  intros Hk Hw. split.
  - split; simpl.
    + apply Z.mod_pos_bound. lia.
    + split; [apply Z.div_pos; lia|]. apply Z.div_lt_upper_bound; lia.
  - unfold offset. simpl. pose proof (Z.div_mod k w). lia.
Qed.

(** The count returned is the number of pixels of the buffer that the call
    changed. *)
Theorem floodFill_counts_changed img sx sy target fill tol img' n :
  validColor fill →
  floodFill img sx sy target fill tol = Some (img', n) →
  n = Z.of_nat (length (changedPixels img img')).
Proof.
  intros Hfill Hres.
  destruct (floodFill_cases _ _ _ _ _ _ _ _ Hfill Hres)
    as [(_ & -> & ->)|(_ & d' & -> & Hloop)].
  { unfold changedPixels. rewrite filter_none; [done|]. intros k _ Hk. by apply Hk. }
  by apply (seedLoop_counts_changed img sx sy fill tol).
Qed.

(** The fill leaves nothing behind: around a pixel it changed, every
    neighbour inside the buffer has the fill colour's r, g, b or is not
    within the tolerance of the seed pixel's original colour. *)
Theorem floodFill_closed img sx sy target fill tol img' n px py q :
  validColor fill →
  floodFill img sx sy target fill tol = Some (img', n) →
  inBounds img px py → pixelAt img' px py ≠ pixelAt img px py →
  q ∈ adjacent (mkPoint px py) → inBounds img (x q) (y q) →
  sameRGB (pixelAt img' (x q) (y q)) fill = true ∨
  isSimilarColor (pixelAt img' (x q) (y q)) (pixelAt img sx sy) tol = false.
Proof.
  intros Hfill Hres Hp Hchanged Hq Hqin.
  destruct (floodFill_cases _ _ _ _ _ _ _ _ Hfill Hres)
    as [(_ & -> & ->)|(_ & d' & -> & Hloop)]; [done|].
  pose proof (fillLoop_changes _ _ _ _ _ _ _ _ _ _ _ Hfill Hloop) as Hchanges.
  assert (discarded (width img) (height img) (pixelAt img sx sy) fill tol d' q = true)
    as Hd.
  { eapply (fillLoop_closed _ _ _ _ _ Hfill (data img)) with (p := mkPoint px py);
      [|done|done| |done].
    - intros p q' _ [H0 H1]. congruence.
    - apply changed_tookFill; [apply Hchanges|]. done. }
  unfold discarded, inBounds, pixelAt, FloodFill.offset in *. simpl in *.
  destruct (Z.ltb_spec (x q) 0); [lia|].
  destruct (Z.geb_spec (x q) (width img)); [lia|].
  destruct (Z.ltb_spec (y q) 0); [lia|].
  destruct (Z.geb_spec (y q) (height img)); [lia|].
  simpl in Hd. apply orb_true_iff in Hd as [Hd%negb_true_iff|Hd]; auto.
Qed.

(** The fill is one region: every pixel it changed is reached from the
    seed by steps to one of the four neighbours over pixels it changed. *)
Theorem floodFill_connected img sx sy target fill tol img' n px py :
  validColor fill →
  floodFill img sx sy target fill tol = Some (img', n) →
  inBounds img px py → pixelAt img' px py ≠ pixelAt img px py →
  route (width img) (height img) fill (data img) (data img')
    (mkPoint sx sy) (mkPoint px py).
Proof.
  intros Hfill Hres Hp Hchanged.
  destruct (floodFill_cases _ _ _ _ _ _ _ _ Hfill Hres)
    as [(_ & -> & ->)|(_ & d' & -> & Hloop)]; [done|].
  pose proof (fillLoop_changes _ _ _ _ _ _ _ _ _ _ _ Hfill Hloop) as Hchanges.
  eapply (fillLoop_routes _ _ _ _ _ Hfill); [| | |done|done|].
  - intros p _ [H0 H1]. congruence.
  - intros s ->%list_elem_of_singleton. by left.
  - done.
  - apply (changed_tookFill fill (data img) d' (py * width img + px)); [|done].
    apply Hchanges.
Qed.

Lemma adjacent_spec p q :
  q ∈ adjacent p ↔
  (x q = x p ∧ (y q = y p - 1 ∨ y q = y p + 1)) ∨
  (y q = y p ∧ (x q = x p - 1 ∨ x q = x p + 1)).
Proof.
  unfold adjacent. rewrite !elem_of_cons, elem_of_nil.
  destruct p as [px py], q as [qx qy]. simpl. split.
  - intros [?|[?|[?|[?|[]]]]]; simplify_eq; lia.
  - intros [[-> [-> | ->]]|[-> [-> | ->]]]; auto.
Qed.

(** A set of points of the grid that holds the seed and is closed under
    stepping to a neighbour inside the grid holds every point of it. *)
Lemma grid_reach (w h : Z) (R : Point → Prop) (seed : Point) :
  inside w h seed → R seed →
  (∀ p q, inside w h p → R p → q ∈ adjacent p → inside w h q → R q) →
  ∀ p, inside w h p → R p.
Proof.
  intros Hseed HR Hstep.
  assert (∀ (m : nat) p, inside w h p →
            Z.abs (x p - x seed) + Z.abs (y p - y seed) = Z.of_nat m → R p) as Hall.
  { induction m as [|m IH]; intros p Hp Hdist.
    - assert (p = seed) as ->; [|done].
      destruct p, seed; simpl in *. f_equal; lia.
    - destruct Hp as [Hpx Hpy], Hseed as [Hsx Hsy].
      destruct (decide (x p = x seed)) as [Hx|Hx].
      + destruct (decide (y p < y seed)) as [Hy|Hy].
        * apply (Hstep (mkPoint (x p) (y p + 1))); [split; simpl; lia| |
            apply adjacent_spec; simpl; lia|done].
          apply IH; [split; simpl; lia|simpl; lia].
        * apply (Hstep (mkPoint (x p) (y p - 1))); [split; simpl; lia| |
            apply adjacent_spec; simpl; lia|done].
          apply IH; [split; simpl; lia|simpl; lia].
      + destruct (decide (x p < x seed)) as [Hlt|Hgt].
        * apply (Hstep (mkPoint (x p + 1) (y p))); [split; simpl; lia| |
            apply adjacent_spec; simpl; lia|done].
          apply IH; [split; simpl; lia|simpl; lia].
        * apply (Hstep (mkPoint (x p - 1) (y p))); [split; simpl; lia| |
            apply adjacent_spec; simpl; lia|done].
          apply IH; [split; simpl; lia|simpl; lia]. }
  intros p Hp.
  apply (Hall (Z.to_nat (Z.abs (x p - x seed) + Z.abs (y p - y seed))) p Hp). lia.
Qed.

(** When every pixel of the buffer is within the tolerance of the seed
    pixel's colour and none has the fill colour's r, g, b yet, the call
    paints the whole buffer and returns the number of its pixels. *)
Theorem floodFill_fills_region img sx sy target fill tol :
  validColor fill → wellFormed img → inBounds img sx sy →
  (∀ px py, inBounds img px py →
     isSimilarColor (pixelAt img px py) (pixelAt img sx sy) tol = true ∧
     sameRGB (pixelAt img px py) fill = false) →
  ∃ img',
    floodFill img sx sy target fill tol = Some (img', width img * height img) ∧
    ∀ px py, inBounds img px py → pixelAt img' px py = fillSample fill.
Proof.
  intros Hfill (Hw & Hh & Hlen) Hseed Hall.
  destruct (floodFill_returns img sx sy target fill tol Hfill)
    as (img' & n & Hres & _).
  destruct (Hall sx sy Hseed) as [Hseedsim Hseedne].
  destruct (floodFill_cases _ _ _ _ _ _ _ _ Hfill Hres)
    as [(Hfilled & _)|(_ & d' & -> & Hloop)]; [congruence|].
  pose proof (fillLoop_changes _ _ _ _ _ _ _ _ _ _ _ Hfill Hloop) as Hchanges.
  (* the seed is painted by the first iteration and stays painted *)
  pose proof (seedLoop_paints_seed img sx sy fill tol d' n Hfill Hseed Hseedsim
                Hseedne Hloop) as Hseedtook.
  (* the painted pixels are closed under stepping to a neighbour *)
  assert (∀ p, inside (width img) (height img) p →
               tookFill fill (data img) d' (offset (width img) p)) as Htook.
  { apply (grid_reach _ _ _ (mkPoint sx sy)); [done|done|].
    intros p q Hp Hptook Hq Hqin.
    assert (discarded (width img) (height img) (pixelAt img sx sy) fill tol d' q
            = true) as Hdq.
    { refine (fillLoop_closed _ _ _ _ _ Hfill (data img) _ _ _ _ _ _ _ Hloop
                p q Hp Hptook Hq).
      intros p0 q0 _ [H0 H1]. congruence. }
    destruct (Hall (x q) (y q) Hqin) as [Hqsim Hqne].
    destruct (Hchanges (y q * width img + x q)) as [Hsame|[H1 H0]]; [|done].
    unfold discarded, FloodFill.offset, pixelAt in Hdq, Hqsim, Hqne.
    rewrite Hsame, Hqsim, Hqne in Hdq.
    destruct Hqin as [Hqx Hqy].
    destruct (Z.ltb_spec (x q) 0); [lia|].
    destruct (Z.geb_spec (x q) (width img)); [lia|].
    destruct (Z.ltb_spec (y q) 0); [lia|].
    destruct (Z.geb_spec (y q) (height img)); [lia|]. done. }
  exists (mkImageData (width img) (height img) d'). split.
  - rewrite Hres. do 2 f_equal.
    rewrite (seedLoop_counts_changed _ _ _ _ _ _ _ Hfill Hloop).
    unfold changedPixels. simpl. rewrite filter_all.
    + rewrite length_seqZ. nia.
    + intros k Hk%elem_of_seqZ.
      apply (proj2 (changed_tookFill fill (data img) d' k (Hchanges k))).
      assert (0 < width img) as Hpos by (destruct Hseed; lia).
      destruct (inside_pixel_number (width img) (height img) k) as [Hin Hoff];
        [lia|done|].
      rewrite <- Hoff. by apply Htook.
  - intros px py Hp.
    destruct (fillLoop_sound _ _ _ _ _ Hfill _ _ _ _ _ _ Hw Hlen Hloop) as [_ Hsound].
    destruct (Hsound (mkPoint px py) Hp) as [Hsame|[_ Hfilled]]; [|done].
    destruct (Htook (mkPoint px py) Hp) as [H0 H1].
    rewrite Hsame in H1. congruence.
Qed.

(** With a tolerance that is not negative, a seed inside a well-formed
    buffer always ends with the fill colour's r, g and b. *)
Theorem floodFill_paints_seed img sx sy target fill tol img' n :
  validColor fill → wellFormed img → inBounds img sx sy → 0 ≤ tol →
  floodFill img sx sy target fill tol = Some (img', n) →
  sameRGB (pixelAt img' sx sy) fill = true.
Proof.
  intros Hfill (Hw & Hh & Hlen) Hseed Htol Hres.
  destruct (floodFill_cases _ _ _ _ _ _ _ _ Hfill Hres)
    as [(Hfilled & -> & ->)|(Hne & d' & -> & Hloop)]; [done|].
  apply (seedLoop_paints_seed img sx sy fill tol d' n); try done.
  destruct (inside_offset_defined (width img) (height img) (data img)
              (mkPoint sx sy) Hw Hlen Hseed) as [[r0 Hr] [a0 Ha]].
  assert (is_Some (get (data img) (offset (width img) (mkPoint sx sy) + 1)) ∧
          is_Some (get (data img) (offset (width img) (mkPoint sx sy) + 2)))
    as [[g0 Hg] [b0 Hb]].
  { assert (get (data img) (offset (width img) (mkPoint sx sy)) = Some r0) as H0
      by done.
    assert (get (data img) (offset (width img) (mkPoint sx sy) + 3) = Some a0) as H3
      by done.
    apply mk_is_Some, get_is_Some in H0, H3. rewrite !get_is_Some. lia. }
  unfold isSimilarColor, pixelAt, sample, FloodFill.offset in *. simpl in *.
  rewrite Hr, Hg, Hb. apply andb_true_iff. split; apply Z.leb_le; nia.
Qed.

(** Raising the tolerance never shrinks the fill: every pixel that the
    call changes at [tol] it also changes at a larger [tol'], and the count
    does not go down. *)
Theorem floodFill_tolerance_monotone img sx sy target fill tol tol' img1 n1 img2 n2 :
  validColor fill → tol ≤ tol' →
  floodFill img sx sy target fill tol = Some (img1, n1) →
  floodFill img sx sy target fill tol' = Some (img2, n2) →
  (∀ px py, inBounds img px py →
            pixelAt img1 px py ≠ pixelAt img px py →
            pixelAt img2 px py ≠ pixelAt img px py) ∧
  n1 ≤ n2.
Proof.
  intros Hfill Htol Hres1 Hres2.
  destruct (floodFill_cases _ _ _ _ _ _ _ _ Hfill Hres1)
    as [(_ & -> & ->)|(Hne & d1 & -> & Hloop1)].
  { split; [done|].
    destruct (floodFill_returns img sx sy target fill tol' Hfill)
      as (? & ? & Hres & _ & _ & ? & _). rewrite Hres in Hres2.
    injection Hres2 as <- <-. lia. }
  destruct (floodFill_cases _ _ _ _ _ _ _ _ Hfill Hres2)
    as [(Hfilled & _)|(_ & d2 & -> & Hloop2)]; [congruence|].
  pose proof (fillLoop_changes _ _ _ _ _ _ _ _ _ _ _ Hfill Hloop1) as Hch1.
  pose proof (fillLoop_changes _ _ _ _ _ _ _ _ _ _ _ Hfill Hloop2) as Hch2.
  pose proof (fillLoop_took_similar _ _ _ _ _ _ _ _ _ _ _ Hfill Hloop1) as Hsim1.
  assert (∀ p, route (width img) (height img) fill (data img) d1 (mkPoint sx sy) p →
               tookFill fill (data img) d2 (offset (width img) p)) as Hroute.
  { induction 1 as [Hseed Htook|p q Hroute IH Hq Hqin Htook].
    - apply (seedLoop_paints_seed img sx sy fill tol' d2 n2); try done.
      apply isSimilarColor_mono with tol; [done|].
      apply (Hsim1 (sy * width img + sx)). done.
    - assert (discarded (width img) (height img) (pixelAt img sx sy) fill tol' d2 q
              = true) as Hdq.
      { refine (fillLoop_closed _ _ _ _ _ Hfill (data img) _ _ _ _ _ _ _ Hloop2
                  p q _ IH Hq).
        - intros p0 q0 _ [H0 H1]. congruence.
        - by inversion Hroute. }
      pose proof (Hsim1 (y q * width img + x q) Htook) as Hqsim.
      apply (isSimilarColor_mono _ _ tol tol') in Hqsim; [|done].
      destruct Htook as [Hq0 _].
      destruct (Hch2 (y q * width img + x q)) as [Hsame|[H1 H0]]; [|done].
      unfold discarded, FloodFill.offset in Hdq, Hqsim, Hq0.
      rewrite Hsame, Hqsim, Hq0 in Hdq.
      destruct Hqin as [Hqx Hqy].
      destruct (Z.ltb_spec (x q) 0); [lia|].
      destruct (Z.geb_spec (x q) (width img)); [lia|].
      destruct (Z.ltb_spec (y q) 0); [lia|].
      destruct (Z.geb_spec (y q) (height img)); [lia|]. done. }
  assert (∀ p, inside (width img) (height img) p →
               tookFill fill (data img) d1 (offset (width img) p) →
               tookFill fill (data img) d2 (offset (width img) p)) as Hsub.
  { intros p Hp Htook. apply Hroute.
    eapply (fillLoop_routes _ _ _ _ _ Hfill); [| | |done|done|done].
    - intros p0 _ [H0 H1]. congruence.
    - intros s ->%list_elem_of_singleton. by left.
    - done. }
  split.
  - intros px py Hp Hchanged.
    apply (proj2 (changed_tookFill fill (data img) d2 (py * width img + px)
                    (Hch2 _))).
    apply (Hsub (mkPoint px py) Hp).
    by apply (proj1 (changed_tookFill fill (data img) d1 (py * width img + px)
                       (Hch1 _))).
  - destruct (decide (0 < width img)) as [Hw|Hw].
    + rewrite (seedLoop_counts_changed _ _ _ _ _ _ _ Hfill Hloop1),
        (seedLoop_counts_changed _ _ _ _ _ _ _ Hfill Hloop2).
      unfold changedPixels. simpl.
      apply inj_le, filter_length_le_in. intros k Hk%elem_of_seqZ Hchanged.
      destruct (inside_pixel_number (width img) (height img) k) as [Hin Hoff];
        [lia|done|].
      apply (proj2 (changed_tookFill fill (data img) d2 k (Hch2 _))).
      rewrite <- Hoff. apply Hsub; [done|]. rewrite Hoff.
      by apply (proj1 (changed_tookFill fill (data img) d1 k (Hch1 _))).
    + assert (n1 = 0) as ->.
      { unfold budget in Hloop1. rewrite fillLoop_step in Hloop1.
        destruct (discarded _ _ _ _ _ _ (mkPoint sx sy)) eqn:Hd.
        - rewrite fillLoop_nil in Hloop1. by injection Hloop1 as _ <-.
        - apply discarded_false in Hd as ([Hx _] & _). simpl in Hx. lia. }
      rewrite (seedLoop_counts_changed _ _ _ _ _ _ _ Hfill Hloop2). lia.
Qed.

(** ** The theorems at concrete buffers *)

Lemma floodFill_counts_changed_witness :
  16 = Z.of_nat (length (changedPixels white4x4 red4x4)).
Proof.
  apply (floodFill_counts_changed white4x4 0 0 black0 red 10 red4x4 16).
  - unfold validColor, red; simpl; lia.
  - vm_compute. reflexivity.
Defined.

Lemma floodFill_closed_witness :
  sameRGB (pixelAt strip3Filled 1 0) red = true ∨
  isSimilarColor (pixelAt strip3Filled 1 0) (pixelAt strip3 0 0) 10 = false.
Proof.
  apply (floodFill_closed strip3 0 0 black0 red 10 strip3Filled 1 0 0 (mkPoint 1 0)).
  - unfold validColor, red; simpl; lia.
  - vm_compute. reflexivity.
  - unfold inBounds, strip3; simpl; lia.
  - vm_compute. discriminate.
  - vm_compute. do 3 right. left.
  - unfold inBounds, strip3; simpl; lia.
Defined.

Lemma floodFill_connected_witness :
  route (width white4x4) (height white4x4) red (data white4x4) (data red4x4)
    (mkPoint 0 0) (mkPoint 3 3).
Proof.
  apply (floodFill_connected white4x4 0 0 black0 red 10 red4x4 16 3 3).
  - unfold validColor, red; simpl; lia.
  - vm_compute. reflexivity.
  - unfold inBounds, white4x4; simpl; lia.
  - vm_compute. discriminate.
Defined.

Lemma floodFill_fills_region_witness :
  ∃ img',
    floodFill white4x4 0 0 black0 red 10
      = Some (img', width white4x4 * height white4x4) ∧
    ∀ px py, inBounds white4x4 px py → pixelAt img' px py = fillSample red.
Proof.
  apply (floodFill_fills_region white4x4 0 0 black0 red 10).
  - unfold validColor, red; simpl; lia.
  - vm_compute. repeat split; discriminate.
  - unfold inBounds, white4x4; simpl; lia.
  - intros px py [Hx Hy]. unfold white4x4 in Hx, Hy. simpl in Hx, Hy.
    assert (px = 0 ∨ px = 1 ∨ px = 2 ∨ px = 3) as Hpx by lia.
    assert (py = 0 ∨ py = 1 ∨ py = 2 ∨ py = 3) as Hpy by lia.
    destruct Hpx as [-> | [-> | [-> | ->]]], Hpy as [-> | [-> | [-> | ->]]];
      vm_compute; split; reflexivity.
Defined.

Lemma floodFill_paints_seed_witness : sameRGB (pixelAt red4x4 0 0) red = true.
Proof.
  apply (floodFill_paints_seed white4x4 0 0 black0 red 10 red4x4 16).
  - unfold validColor, red; simpl; lia.
  - vm_compute. repeat split; discriminate.
  - unfold inBounds, white4x4; simpl; lia.
  - lia.
  - vm_compute. reflexivity.
Defined.

Lemma floodFill_tolerance_monotone_witness :
  (∀ px py, inBounds strip3 px py →
            pixelAt strip3Filled px py ≠ pixelAt strip3 px py →
            pixelAt (render 3 1 (λ _ _, (255, 0, 0, 255))) px py ≠ pixelAt strip3 px py) ∧
  1 ≤ 3.
Proof.
  apply (floodFill_tolerance_monotone strip3 0 0 black0 red 10 500 strip3Filled 1
           (render 3 1 (λ _ _, (255, 0, 0, 255))) 3).
  - unfold validColor, red; simpl; lia.
  - lia.
  - vm_compute. reflexivity.
  - vm_compute. reflexivity.
Defined.

End FloodFillFacts.

(* ===================================================================== *)
(** * Further properties of the colour classifier                         *)
(* ===================================================================== *)

Module ClassifierFacts.
Import Classifier ClassifierProofs.

Lemma matchesAny_true color tolerance samples :
  matchesAny color tolerance samples = true ↔
  ∃ s, s ∈ samples ∧ colorSimilarity color s ≤ tolerance.
Proof.
  destruct color as [r0 g0 b0]. rewrite matchesAny_someWithin.
  unfold someWithin. by setoid_rewrite <- colorSimilarity_manhattan.
Qed.

Lemma colorSimilarity_nonneg c1 c2 : 0 ≤ colorSimilarity c1 c2.
Proof. unfold colorSimilarity. lia. Qed.

Lemma colorSimilarity_triangle c1 c2 c3 :
  colorSimilarity c1 c3 ≤ colorSimilarity c1 c2 + colorSimilarity c2 c3.
Proof. unfold colorSimilarity. lia. Qed.

Lemma colorSimilarity_sym c1 c2 : colorSimilarity c1 c2 = colorSimilarity c2 c1.
Proof. unfold colorSimilarity. lia. Qed.

(** A building stays a building, and a colour that is not ['none'] stays
    not ['none'], when the colour moves by at most [d] (in
    [colorSimilarity]) and the tolerance is raised by [d]. *)
Lemma matchesAny_moved c c' tolerance d samples :
  colorSimilarity c c' ≤ d →
  matchesAny c tolerance samples = true →
  matchesAny c' (tolerance + d) samples = true.
Proof.
  intros Hd. rewrite !matchesAny_true. intros (s & Hs & Hle).
  exists s. split; [done|].
  pose proof (colorSimilarity_triangle c' c s).
  rewrite (colorSimilarity_sym c' c) in *. lia.
Qed.

(** Raising the tolerance never loses a match: a building stays a
    building, and a colour that is not ['none'] stays not ['none'] (a
    boundary may become a building). *)
Theorem isBuildingColor_monotone (P : Palette) (r0 g0 b0 tol tol' : Z) :
  tol ≤ tol' →
  (isBuildingColor P r0 g0 b0 (Some tol) = TBuilding →
   isBuildingColor P r0 g0 b0 (Some tol') = TBuilding) ∧
  (isBuildingColor P r0 g0 b0 (Some tol) ≠ TNone →
   isBuildingColor P r0 g0 b0 (Some tol') ≠ TNone).
Proof.
  intros Hle. unfold isBuildingColor. simpl.
  assert (∀ samples, matchesAny (mkRGB r0 g0 b0) tol samples = true →
                     matchesAny (mkRGB r0 g0 b0) tol' samples = true) as Hmono.
  { intros samples H. replace tol' with (tol + (tol' - tol)) by lia.
    apply (matchesAny_moved (mkRGB r0 g0 b0)); [|done].
    unfold colorSimilarity. simpl. lia. }
  pose proof (Hmono (building P)) as Hb. pose proof (Hmono (boundary P)) as Hd.
  destruct (matchesAny _ tol (building P)), (matchesAny _ tol (boundary P));
    split; intros; try done;
    rewrite ?Hb, ?Hd by done; try done;
    by destruct (matchesAny _ tol' (building P)).
Qed.

Lemma isBuildingColor_monotone_witness :
  (isBuildingColor BUILDING_COLORS_map 250 225 185 (Some 20) = TBuilding →
   isBuildingColor BUILDING_COLORS_map 250 225 185 (Some 50) = TBuilding) ∧
  (isBuildingColor BUILDING_COLORS_map 250 225 185 (Some 20) ≠ TNone →
   isBuildingColor BUILDING_COLORS_map 250 225 185 (Some 50) ≠ TNone).
Proof. apply (isBuildingColor_monotone BUILDING_COLORS_map 250 225 185 20 50). lia. Defined.

(** With a negative tolerance every colour is ['none'], whatever the
    palette: a distance is never negative. *)
Theorem isBuildingColor_negative_tolerance (P : Palette) (r0 g0 b0 tol : Z) :
  tol < 0 → isBuildingColor P r0 g0 b0 (Some tol) = TNone.
Proof.
  intros Hneg. unfold isBuildingColor. simpl.
  assert (∀ samples, matchesAny (mkRGB r0 g0 b0) tol samples = false) as Hnone.
  { intros samples. apply not_true_is_false. rewrite matchesAny_true.
    intros (s & _ & Hle). pose proof (colorSimilarity_nonneg (mkRGB r0 g0 b0) s). lia. }
  by rewrite !Hnone.
Qed.

Lemma isBuildingColor_negative_tolerance_witness :
  isBuildingColor BUILDING_COLORS_map 255 230 190 (Some (-1)) = TNone.
Proof. apply (isBuildingColor_negative_tolerance BUILDING_COLORS_map 255 230 190 (-1)). lia. Defined.

(** The classification is stable under a small change of the colour: when
    each channel moves so that the sum of the absolute moves is at most [d],
    a building at tolerance [tol] is a building at [tol + d], and a colour
    that is not ['none'] at [tol] is not ['none'] at [tol + d]. *)
Theorem isBuildingColor_stable (P : Palette) (r0 g0 b0 r1 g1 b1 tol d : Z) :
  Z.abs (r0 - r1) + Z.abs (g0 - g1) + Z.abs (b0 - b1) ≤ d →
  (isBuildingColor P r0 g0 b0 (Some tol) = TBuilding →
   isBuildingColor P r1 g1 b1 (Some (tol + d)) = TBuilding) ∧
  (isBuildingColor P r0 g0 b0 (Some tol) ≠ TNone →
   isBuildingColor P r1 g1 b1 (Some (tol + d)) ≠ TNone).
Proof.
  intros Hd. unfold isBuildingColor. simpl.
  assert (∀ samples, matchesAny (mkRGB r0 g0 b0) tol samples = true →
                     matchesAny (mkRGB r1 g1 b1) (tol + d) samples = true) as Hmoved.
  { intros samples. by apply matchesAny_moved. }
  pose proof (Hmoved (building P)) as Hb. pose proof (Hmoved (boundary P)) as Hbd.
  destruct (matchesAny _ tol (building P)), (matchesAny _ tol (boundary P));
    split; intros; try done;
    rewrite ?Hb, ?Hbd by done; try done;
    by destruct (matchesAny _ (tol + d) (building P)).
Qed.

Lemma isBuildingColor_stable_witness :
  (isBuildingColor BUILDING_COLORS_map 255 230 190 (Some 50) = TBuilding →
   isBuildingColor BUILDING_COLORS_map 250 228 193 (Some (50 + 10)) = TBuilding) ∧
  (isBuildingColor BUILDING_COLORS_map 255 230 190 (Some 50) ≠ TNone →
   isBuildingColor BUILDING_COLORS_map 250 228 193 (Some (50 + 10)) ≠ TNone).
Proof.
  apply (isBuildingColor_stable BUILDING_COLORS_map 255 230 190 250 228 193 50 10).
  simpl. lia.
Defined.

Lemma matchesAny_subseteq color tolerance (samples samples' : list RGB) :
  samples ⊆ samples' →
  matchesAny color tolerance samples = true →
  matchesAny color tolerance samples' = true.
Proof.
  intros Hsub. rewrite !matchesAny_true. intros (s & Hs & Hle).
  exists s. split; [by apply Hsub|done].
Qed.

(** The two pages agree in one direction: at the same tolerance, what the
    map page's palette calls a building the flood-fill page's palette calls
    a building too, and what the map page does not call ['none'] the
    flood-fill page does not either. *)
Theorem isBuildingColor_pages (r0 g0 b0 : Z) (tolerance : option Z) :
  (isBuildingColor BUILDING_COLORS_map r0 g0 b0 tolerance = TBuilding →
   isBuildingColor BUILDING_COLORS_floodFill r0 g0 b0 tolerance = TBuilding) ∧
  (isBuildingColor BUILDING_COLORS_map r0 g0 b0 tolerance ≠ TNone →
   isBuildingColor BUILDING_COLORS_floodFill r0 g0 b0 tolerance ≠ TNone).
Proof.
  unfold isBuildingColor.
  assert (building BUILDING_COLORS_map ⊆ building BUILDING_COLORS_floodFill) as Hb.
  { intros s. simpl. rewrite !elem_of_cons. tauto. }
  assert (boundary BUILDING_COLORS_map ⊆ boundary BUILDING_COLORS_floodFill) as Hd.
  { intros s. simpl. rewrite !elem_of_cons. tauto. }
  pose proof (matchesAny_subseteq (mkRGB r0 g0 b0) (default 50 tolerance) _ _ Hb) as Hb'.
  pose proof (matchesAny_subseteq (mkRGB r0 g0 b0) (default 50 tolerance) _ _ Hd) as Hd'.
  destruct (matchesAny _ _ (building BUILDING_COLORS_map)),
    (matchesAny _ _ (boundary BUILDING_COLORS_map));
    split; intros; try done;
    rewrite ?Hb', ?Hd' by done; try done;
    by destruct (matchesAny _ _ (building BUILDING_COLORS_floodFill)).
Qed.

End ClassifierFacts.

(* ===================================================================== *)
(** * Further properties of the converter and the detector                *)
(* ===================================================================== *)

Module DetectorFacts.
Import Raster Clustering ClusteringProofs Detector DetectorProofs.

(** ** The bounding box *)

Abbreviation box a b c d := (mkBounds (Finite a) (Finite b) (Finite c) (Finite d)).

Abbreviation grow_box :=
  (λ (acc : Bounds) (p : Pixel),
     {| minX := numMin (minX acc) (Finite p.1);
        minY := numMin (minY acc) (Finite p.2);
        maxX := numMax (maxX acc) (Finite p.1);
        maxY := numMax (maxY acc) (Finite p.2) |}).

Lemma foldl_box (l : list Pixel) a b c d :
  ∃ a' b' c' d',
    foldl grow_box (box a b c d) l = box a' b' c' d' ∧
    (a' ≤ a ∧ b' ≤ b ∧ c ≤ c' ∧ d ≤ d') ∧
    (∀ p, p ∈ l → a' ≤ p.1 ≤ c' ∧ b' ≤ p.2 ≤ d') ∧
    (a' = a ∨ ∃ p, p ∈ l ∧ p.1 = a') ∧ (b' = b ∨ ∃ p, p ∈ l ∧ p.2 = b') ∧
    (c' = c ∨ ∃ p, p ∈ l ∧ p.1 = c') ∧ (d' = d ∨ ∃ p, p ∈ l ∧ p.2 = d').
Proof.
  revert a b c d. induction l as [|q l IH]; intros a b c d.
  { exists a, b, c, d. split_and!; try done; try lia; try by left.
    by intros p ?%elem_of_nil. }
  simpl.
  destruct (IH (Z.min a q.1) (Z.min b q.2) (Z.max c q.1) (Z.max d q.2))
    as (a' & b' & c' & d' & Heq & Hle & Hin & Ha & Hb & Hc & Hd).
  exists a', b', c', d'.
  refine (conj Heq (conj _ (conj _ (conj _ (conj _ (conj _ _)))))).
  - lia.
  - intros p [->|Hp]%elem_of_cons; [lia|by apply Hin].
  - destruct Ha as [Ha|(p & Hp & Hpa)]; [|right; exists p; split; [by right|done]].
    destruct (Z.min_spec a q.1) as [[_ Hm]|[_ Hm]]; [left; lia|].
    right. exists q. split; [left|lia].
  - destruct Hb as [Hb|(p & Hp & Hpb)]; [|right; exists p; split; [by right|done]].
    destruct (Z.min_spec b q.2) as [[_ Hm]|[_ Hm]]; [left; lia|].
    right. exists q. split; [left|lia].
  - destruct Hc as [Hc|(p & Hp & Hpc)]; [|right; exists p; split; [by right|done]].
    destruct (Z.max_spec c q.1) as [[_ Hm]|[_ Hm]]; [|left; lia].
    right. exists q. split; [left|lia].
  - destruct Hd as [Hd|(p & Hp & Hpd)]; [|right; exists p; split; [by right|done]].
    destruct (Z.max_spec d q.2) as [[_ Hm]|[_ Hm]]; [|left; lia].
    right. exists q. split; [left|lia].
Qed.

(** The bounds of a non-empty list of pixels are four integers; every pixel
    lies between them, and each of the four is the coordinate of some pixel
    of the list. *)
Theorem calculateBounds_tight (pixels : list Pixel) :
  pixels ≠ [] →
  ∃ x0 y0 x1 y1,
    calculateBounds pixels = box x0 y0 x1 y1 ∧
    (∀ p, p ∈ pixels → x0 ≤ p.1 ≤ x1 ∧ y0 ≤ p.2 ≤ y1) ∧
    (∃ p, p ∈ pixels ∧ p.1 = x0) ∧ (∃ p, p ∈ pixels ∧ p.2 = y0) ∧
    (∃ p, p ∈ pixels ∧ p.1 = x1) ∧ (∃ p, p ∈ pixels ∧ p.2 = y1).
Proof.
  destruct pixels as [|q l]; [done|]. intros _.
  destruct (foldl_box l q.1 q.2 q.1 q.2)
    as (a' & b' & c' & d' & Heq & Hle & Hin & Ha & Hb & Hc & Hd).
  exists a', b', c', d'.
  refine (conj _ (conj _ (conj _ (conj _ (conj _ _))))).
  - unfold calculateBounds. simpl. done.
  - intros p [->|Hp]%elem_of_cons; [lia|by apply Hin].
  - destruct Ha as [->|(p & Hp & Hpa)]; [exists q|exists p];
      (split; [by constructor|done]).
  - destruct Hb as [->|(p & Hp & Hpa)]; [exists q|exists p];
      (split; [by constructor|done]).
  - destruct Hc as [->|(p & Hp & Hpa)]; [exists q|exists p];
      (split; [by constructor|done]).
  - destruct Hd as [->|(p & Hp & Hpa)]; [exists q|exists p];
      (split; [by constructor|done]).
Qed.

Lemma calculateBounds_tight_witness :
  ∃ x0 y0 x1 y1,
    calculateBounds [(3, 7); (5, 2); (4, 9)] = box x0 y0 x1 y1 ∧
    (∀ p, p ∈ [(3, 7); (5, 2); (4, 9)] → x0 ≤ p.1 ≤ x1 ∧ y0 ≤ p.2 ≤ y1) ∧
    (∃ p, p ∈ [(3, 7); (5, 2); (4, 9)] ∧ p.1 = x0) ∧
    (∃ p, p ∈ [(3, 7); (5, 2); (4, 9)] ∧ p.2 = y0) ∧
    (∃ p, p ∈ [(3, 7); (5, 2); (4, 9)] ∧ p.1 = x1) ∧
    (∃ p, p ∈ [(3, 7); (5, 2); (4, 9)] ∧ p.2 = y1).
Proof. apply (calculateBounds_tight [(3, 7); (5, 2); (4, 9)]). discriminate. Defined.

(** ** The pixels the detector clusters *)

(** The clusters hold exactly the pixels of the image that are classified
    ['building'] and lie within [markerRadius] of the marker pixel. *)
Theorem clustersOf_cover imageData pixelX pixelY (p : Pixel) :
  (∃ c, c ∈ clustersOf imageData pixelX pixelY ∧ p ∈ c) ↔
  (0 ≤ p.1 < width imageData ∧ 0 ≤ p.2 < height imageData) ∧
  colorTypeAt imageData p.1 p.2 = Classifier.TBuilding ∧
  nearMarker pixelX pixelY p = true.
Proof.
  unfold clustersOf. rewrite <- ClusteringFacts.clusterPixels_cover.
  unfold pixelsOfType. rewrite !list_elem_of_filter, elem_of_scanOrder. tauto.
Qed.

Lemma nearMarker_box pixelX pixelY (p : Pixel) :
  nearMarker pixelX pixelY p = true →
  pixelX - 30 ≤ p.1 ≤ pixelX + 30 ∧ pixelY - 30 ≤ p.2 ≤ pixelY + 30.
Proof.
  unfold nearMarker, markerRadius. intros H%Z.leb_le. nia.
Qed.

(** A pixel of a cluster lies inside the image and within [markerRadius] of
    the marker pixel on both axes. *)
Lemma clustersOf_member imageData pixelX pixelY c (p : Pixel) :
  c ∈ clustersOf imageData pixelX pixelY → p ∈ c →
  (0 ≤ p.1 < width imageData ∧ 0 ≤ p.2 < height imageData) ∧
  (pixelX - 30 ≤ p.1 ≤ pixelX + 30 ∧ pixelY - 30 ≤ p.2 ≤ pixelY + 30).
Proof.
  intros Hc Hp.
  assert (p ∈ filter (λ p, nearMarker pixelX pixelY p = true)
                (pixelsOfType Classifier.TBuilding imageData)) as Hin.
  { apply (ClusteringFacts.clusterPixels_cover _ 3). by exists c. }
  unfold pixelsOfType in Hin.
  rewrite !list_elem_of_filter, elem_of_scanOrder in Hin.
  split; [tauto|]. apply nearMarker_box. tauto.
Qed.

Section WithProjection.
Context {Deg : Type} (pixelLon pixelLat : Z → Num → Deg).

Abbreviation detect := (detectBuildingsByColor pixelLon pixelLat).

(** What the detector returns when it returns a collection. *)
Lemma detect_features imageData tileX tileY pixelX pixelY result :
  detect (Decoded imageData) tileX tileY pixelX pixelY = Some result →
  features result =
    featuresOf (clustersOf imageData pixelX pixelY)
      (polygonsOf pixelLon pixelLat tileX tileY (clustersOf imageData pixelX pixelY)).
Proof.
  unfold detectBuildingsByColor, detectFrom.
  fold (clustersOf imageData pixelX pixelY).
  destruct (_ || _); [done|]. destruct (negb _); [done|].
  destruct (_ =? 0); [done|]. by intros [= <-].
Qed.

(** Every ring returned is the closed ring around an integer pixel box, in
    the order (minX, minY), (maxX, minY), (maxX, maxY), (minX, maxY),
    (minX, minY); the box lies inside the image and within [markerRadius]
    of the marker pixel on both axes. *)
Theorem detect_ring_in_tile imageData tileX tileY pixelX pixelY result f :
  detectBuildingsByColor pixelLon pixelLat (Decoded imageData) tileX tileY
    pixelX pixelY = Some result →
  f ∈ features result →
  ∃ x0 y0 x1 y1,
    coordinates f =
      [ [ (pixelLon tileX (Finite x0), pixelLat tileY (Finite y0));
          (pixelLon tileX (Finite x1), pixelLat tileY (Finite y0));
          (pixelLon tileX (Finite x1), pixelLat tileY (Finite y1));
          (pixelLon tileX (Finite x0), pixelLat tileY (Finite y1));
          (pixelLon tileX (Finite x0), pixelLat tileY (Finite y0)) ] ] ∧
    (0 ≤ x0 ≤ x1 ∧ x1 < width imageData) ∧
    (0 ≤ y0 ≤ y1 ∧ y1 < height imageData) ∧
    (pixelX - 30 ≤ x0 ∧ x1 ≤ pixelX + 30) ∧
    (pixelY - 30 ≤ y0 ∧ y1 ≤ pixelY + 30).
Proof.
  intros Hdetect%detect_features Hf. rewrite Hdetect in Hf.
  unfold featuresOf, polygonsOf in Hf.
  apply list_elem_of_lookup in Hf as [i Hi].
  rewrite list_lookup_imap, list_lookup_fmap in Hi.
  destruct (filter _ _ !! i) as [c|] eqn:Hc; [|done].
  simpl in Hi. injection Hi as <-. simpl.
  apply list_elem_of_lookup_2, list_elem_of_filter in Hc as [Hsurvives Hc].
  assert (∀ p, p ∈ c →
            (0 ≤ p.1 < width imageData ∧ 0 ≤ p.2 < height imageData) ∧
            (pixelX - 30 ≤ p.1 ≤ pixelX + 30 ∧ pixelY - 30 ≤ p.2 ≤ pixelY + 30))
    as Hmember.
  { intros p Hp. by apply (clustersOf_member imageData pixelX pixelY c). }
  destruct c as [|q l].
  { apply survives_spec in Hsurvives. simpl in Hsurvives. lia. }
  destruct (foldl_box l q.1 q.2 q.1 q.2)
    as (x0 & y0 & x1 & y1 & Hbox & Hle & _ & Ha & Hb & Hc' & Hd).
  assert (q ∈ q :: l) as Hq%Hmember by left.
  assert (∀ u, u ∈ l →
            (0 ≤ u.1 < width imageData ∧ 0 ≤ u.2 < height imageData) ∧
            (pixelX - 30 ≤ u.1 ≤ pixelX + 30 ∧ pixelY - 30 ≤ u.2 ≤ pixelY + 30))
    as Hrest by (intros u Hu; apply Hmember; by right).
  exists x0, y0, x1, y1. split.
  - assert (calculateBounds (q :: l) = box x0 y0 x1 y1) as Hcb
      by (unfold calculateBounds; simpl; done).
    unfold polygonOf, geoPolygon. by rewrite Hcb.
  - destruct Ha as [->|(pa & Hpa%Hrest & <-)], Hb as [->|(pb & Hpb%Hrest & <-)],
      Hc' as [->|(pc & Hpc%Hrest & <-)], Hd as [->|(pd & Hpd%Hrest & <-)]; lia.
Qed.

(** When no cluster is under five pixels, every feature is tagged with the
    size of its own cluster: the tags are the sizes of the clusters, in
    order. *)
Theorem detect_pixelCount_all_survive imageData tileX tileY pixelX pixelY result :
  detect (Decoded imageData) tileX tileY pixelX pixelY = Some result →
  Forall (λ c, (5 ≤ length c)%nat) (clustersOf imageData pixelX pixelY) →
  pixelCount <$> features result =
  (λ c, Z.of_nat (length c)) <$> clustersOf imageData pixelX pixelY.
Proof.
  intros Hdetect%detect_features Hall. rewrite Hdetect.
  unfold featuresOf, polygonsOf.
  rewrite (FloodFillFacts.filter_all _ (clustersOf imageData pixelX pixelY)).
  2:{ rewrite Forall_forall in Hall. intros c Hc. by apply survives_spec, Hall. }
  apply list_eq. intros i.
  rewrite !list_lookup_fmap, list_lookup_imap, list_lookup_fmap.
  by destruct (clustersOf imageData pixelX pixelY !! i).
Qed.
End WithProjection.

(** ** The theorems at the fixtures *)

Lemma detect_ring_in_tile_witness :
  ∃ x0 y0 x1 y1,
    [ringOf 75 133 84 142] =
      [ [ (keep tokyoTileX (Finite x0), keep tokyoTileY (Finite y0));
          (keep tokyoTileX (Finite x1), keep tokyoTileY (Finite y0));
          (keep tokyoTileX (Finite x1), keep tokyoTileY (Finite y1));
          (keep tokyoTileX (Finite x0), keep tokyoTileY (Finite y1));
          (keep tokyoTileX (Finite x0), keep tokyoTileY (Finite y0)) ] ] ∧
    (0 ≤ x0 ≤ x1 ∧ x1 < width blockTile) ∧
    (0 ≤ y0 ≤ y1 ∧ y1 < height blockTile) ∧
    (80 - 30 ≤ x0 ∧ x1 ≤ 80 + 30) ∧ (138 - 30 ≤ y0 ∧ y1 ≤ 138 + 30).
Proof.
  apply (detect_ring_in_tile keep keep blockTile tokyoTileX tokyoTileY 80 138
           blockResult
           {| coordinates := [ringOf 75 133 84 142]; id := 1;
              building := "color_detected"; source := "color_analysis";
              pixelCount := 100 |}).
  - unfold blockTile. run_detector.
  - left.
Defined.

Lemma detect_pixelCount_all_survive_witness :
  pixelCount <$> features blockResult =
  (λ c, Z.of_nat (length c)) <$> clustersOf blockTile 80 138.
Proof.
  apply (detect_pixelCount_all_survive keep keep blockTile tokyoTileX tokyoTileY
           80 138 blockResult).
  - unfold blockTile. run_detector.
  - unfold blockTile, clustersOf. rewrite pixelsOfType_render.
    vm_compute. repeat constructor.
Defined.

End DetectorFacts.

(* ===================================================================== *)
(** * Properties of the colour text and of the click handler              *)
(* ===================================================================== *)

Module HexColorFacts.
Import Raster FloodFill FloodFillProofs HexColor.

Lemma hexValue_range c v : hexValue c = Some v → 0 ≤ v ≤ 15.
Proof.
  unfold hexValue. generalize (Z.of_N (N_of_ascii c)). intros unit.
  repeat case_match; intros [= <-]; lia.
Qed.

Lemma parseHex2_range c1 c2 v : parseHex2 c1 c2 = Some v → 0 ≤ v ≤ 255.
Proof.
  unfold parseHex2.
  destruct (hexValue c1) as [hi|] eqn:H1; [|done].
  destruct (hexValue c2) as [lo|] eqn:H2; [|done].
  apply hexValue_range in H1, H2. intros [= <-]. lia.
Qed.

(** The channels [hexToRgb] gives are byte values. *)
Lemma hexToRgb_bytes hex : validColor (hexToRgb hex).
Proof.
  unfold hexToRgb.
  assert (validColor (mkColor 255 0 0 255)) as Hred
    by (unfold validColor; simpl; lia).
  destruct (match hex with String "#"%char rest => rest | _ => hex end)
    as [|c1 [|c2 [|c3 [|c4 [|c5 [|c6 [|c7 s]]]]]]]; try done.
  destruct (parseHex2 c1 c2) as [r0|] eqn:Hr; [|done].
  destruct (parseHex2 c3 c4) as [g0|] eqn:Hg; [|done].
  destruct (parseHex2 c5 c6) as [b0|] eqn:Hb; [|done].
  apply parseHex2_range in Hr, Hg, Hb. unfold validColor. simpl. lia.
Qed.

(** Whatever the text, [hexToRgb] gives an opaque colour with byte-valued
    channels. *)
Theorem hexToRgb_valid hex : validColor (hexToRgb hex) ∧ a (hexToRgb hex) = 255.
Proof.
  split; [apply hexToRgb_bytes|]. unfold hexToRgb.
  destruct (match hex with String "#"%char rest => rest | _ => hex end)
    as [|c1 [|c2 [|c3 [|c4 [|c5 [|c6 [|c7 s]]]]]]]; try done.
  by destruct (parseHex2 c1 c2), (parseHex2 c3 c4), (parseHex2 c5 c6).
Qed.

(** The text the detector prints for a pixel reads back as that pixel's
    colour: for byte-valued channels [hexToRgb (markerColor r g b)] is
    [(r, g, b)] with alpha 255. *)
Lemma byte_round_trip v :
  0 ≤ v ≤ 255 →
  ∃ c1 c2, padStart2 (toString16 v) = String c1 (String c2 EmptyString) ∧
           parseHex2 c1 c2 = Some v.
Proof.
  intros Hv.
  assert (forallb (λ v, match padStart2 (toString16 v) with
                        | String c1 (String c2 EmptyString) =>
                            match parseHex2 c1 c2 with
                            | Some u => u =? v
                            | None => false
                            end
                        | _ => false
                        end) (seqZ 0 256) = true) as Hall.
  { vm_compute. reflexivity. }
  rewrite forallb_forall in Hall. specialize (Hall v).
  rewrite <- list_elem_of_In, elem_of_seqZ in Hall. specialize (Hall ltac:(lia)).
  destruct (padStart2 (toString16 v)) as [|c1 [|c2 [|c3 s]]]; try done.
  exists c1, c2. split; [done|].
  destruct (parseHex2 c1 c2) as [u|]; [|done]. apply Z.eqb_eq in Hall. by subst.
Qed.

Theorem hexToRgb_markerColor r0 g0 b0 :
  0 ≤ r0 ≤ 255 → 0 ≤ g0 ≤ 255 → 0 ≤ b0 ≤ 255 →
  hexToRgb (markerColor r0 g0 b0) = mkColor r0 g0 b0 255.
Proof.
  intros Hr Hg Hb. unfold markerColor.
  destruct (byte_round_trip r0 Hr) as (r1 & r2 & -> & Hpr).
  destruct (byte_round_trip g0 Hg) as (g1 & g2 & -> & Hpg).
  destruct (byte_round_trip b0 Hb) as (b1 & b2 & -> & Hpb).
  unfold hexToRgb. simpl. by rewrite Hpr, Hpg, Hpb.
Qed.

Lemma hexToRgb_markerColor_witness :
  hexToRgb (markerColor 255 230 190) = mkColor 255 230 190 255.
Proof. apply (hexToRgb_markerColor 255 230 190); lia. Defined.

Example markerColor_example :
  markerColor 255 230 190 = "#ffe6be" ∧ markerColor 0 10 255 = "#000aff" ∧
  hexToRgb "#FFE6BE" = mkColor 255 230 190 255 ∧
  hexToRgb "ffe6be" = mkColor 255 230 190 255 ∧
  hexToRgb "#ffe6b" = mkColor 255 0 0 255 ∧
  hexToRgb "#ffe6beff" = mkColor 255 0 0 255 ∧
  hexToRgb "##ffe6be" = mkColor 255 0 0 255 ∧
  hexToRgb "#ggg6be" = mkColor 255 0 0 255.
Proof. repeat split. Qed.

(** The click handler always comes back, whatever text the colour field
    holds and whatever the tolerance: the colour it fills with is
    byte-valued, so the fill ends. The canvas keeps its size, the count is
    not negative, and when the clicked pixel is not building-coloured the
    canvas is left as it was and no count is reported. *)
Theorem detectAndFloodFill_returns canvas pixelX pixelY fillColor tolerance :
  ∃ canvas' count,
    detectAndFloodFill canvas pixelX pixelY fillColor tolerance
      = Some (canvas', count) ∧
    width canvas' = width canvas ∧ height canvas' = height canvas ∧
    match count with
    | Some n =>
        buildingType (canvasPixel canvas pixelX pixelY) tolerance ≠ Classifier.TNone ∧
        0 ≤ n ≤ Z.max 0 (width canvas * height canvas)
    | None =>
        buildingType (canvasPixel canvas pixelX pixelY) tolerance = Classifier.TNone ∧
        canvas' = canvas
    end.
Proof.
  unfold detectAndFloodFill.
  pose proof (hexToRgb_bytes fillColor) as Hvalid.
  destruct (floodFill_returns canvas pixelX pixelY (mkColor 0 0 0 0)
              (hexToRgb fillColor) tolerance Hvalid)
    as (canvas' & n & -> & Hw & Hh & Hn & _).
  destruct (buildingType _ tolerance) eqn:Htype.
  - exists canvas', (Some n). split_and!; (done || lia).
  - exists canvas', (Some n). split_and!; (done || lia).
  - exists canvas, None. by split_and!.
Qed.

Example detectAndFloodFill_example :
  detectAndFloodFill buildingCanvas 1 1 "#ff0000" 30
    = Some (render 3 3 (λ _ _, (255, 0, 0, 255)), Some 9) ∧
  detectAndFloodFill white4x4 1 1 "#ff0000" 30 = Some (white4x4, None).
Proof. split; vm_compute; reflexivity. Qed.

End HexColorFacts.
